(** * Reference game instance generator: distractor selection and
      positional instances

    A shallow embedding of [games/referencegame/instancegenerator.py]:
    the pairwise distance matrix ([get_distances]), the search for the two
    nearest distractors ([select_distractors]), the expansion of a triplet
    into three positional instances (the body of [on_generate]) and the
    response patterns ([_generate_regex]).

    Python values are modelled as follows.  Integers are [Z], list indices
    produced by [range] and [list.index] are [nat], strings are [string],
    lists are [list] with stdpp's lookup [l !! i], dictionaries with string
    keys are [gmap string _].  A call that can raise returns a [res]; a loop
    that may run forever takes a fuel argument and returns [None] when the
    fuel is used up before the loop exits.

    What the generator reads from outside is an argument of the functions
    below: the table [MULTILINGUAL_PATTERNS] of the localization module,
    the prompt templates on disk, and the groups of the grids file in the
    order of its keys. *)

From Stdlib Require Import ZArith Lia Ascii.
From stdpp Require Import base option list strings gmap.

Local Open Scope Z_scope.

(** ** Exceptions and results *)

Inductive exn : Type :=
  | IndexError
  | ValueError
  | KeyError
  | TypeError
  | AssertionError
  | FileNotFoundError.

Inductive res (A : Type) : Type :=
  | Ok (a : A)
  | Raise (e : exn).

Arguments Ok {A} a.
Arguments Raise {A} e.

#[global] Instance res_ret : MRet res := λ A a, Ok a.

#[global] Instance res_bind : MBind res := λ A B k r,
  match r with
  | Ok a => k a
  | Raise e => Raise e
  end.

(** A [for] loop whose body may raise: the accumulator is threaded
    through the iterations and the first exception ends the loop. *)
Fixpoint for_each {A B : Type} (body : B → A → res B) (acc : B) (l : list A)
  : res B :=
  match l with
  | [] => Ok acc
  | a :: l' => acc' ← body acc a; for_each body acc' l'
  end.

(** ** Python list and string operations used by the generator *)

Module Py.

(** [x in l] *)
Definition contains (x : Z) (l : list Z) : bool :=
  existsb (Z.eqb x) l.

(** [l.index(x)]: the first position holding [x]; [ValueError] if absent. *)
Fixpoint find_index (x : Z) (l : list Z) : option nat :=
  match l with
  | [] => None
  | y :: l' => if Z.eqb x y then Some 0%nat else S <$> find_index x l'
  end.

Definition index (l : list Z) (x : Z) : res nat :=
  match find_index x l with
  | Some i => Ok i
  | None => Raise ValueError
  end.

(** [l.index(x, start)] for a non-negative [start]. *)
Definition index_from (l : list Z) (x : Z) (start : nat) : res nat :=
  match find_index x (drop start l) with
  | Some i => Ok (start + i)%nat
  | None => Raise ValueError
  end.

(** [l[start:]] for a non-negative [start]. *)
Definition slice_from {A : Type} (l : list A) (start : nat) : list A :=
  drop start l.

(** [l[i]] for a non-negative index [i]. *)
Definition getitem {A : Type} (l : list A) (i : nat) : res A :=
  match l !! i with
  | Some a => Ok a
  | None => Raise IndexError
  end.

(** [d[k]] on a dictionary with string keys. *)
Definition dict_getitem {A : Type} (d : gmap string A) (k : string) : res A :=
  match d !! k with
  | Some a => Ok a
  | None => Raise KeyError
  end.

(** [s.split(sep)] for a one-character separator: every occurrence of
    the separator ends a token, so the result is never empty and may hold
    empty tokens. *)
Fixpoint split (sep : ascii) (s : string) : list string :=
  match s with
  | EmptyString => [EmptyString]
  | String c s' =>
      if Ascii.eqb c sep then EmptyString :: split sep s'
      else
        match split sep s' with
        | tok :: toks => String c tok :: toks
        | [] => [String c EmptyString]
        end
  end.

(** [s.replace(old, new)] for a non-empty [old]: the occurrences are
    found from left to right and do not overlap.  [skip] counts the
    characters of an occurrence that are still to be dropped. *)
Fixpoint replace_from (old new : string) (skip : nat) (s : string) : string :=
  match s with
  | EmptyString => EmptyString
  | String c s' =>
      match skip with
      | S k => replace_from old new k s'
      | O =>
          if String.prefix old s
          then new +:+ replace_from old new (String.length old - 1) s'
          else String c (replace_from old new 0 s')
      end
  end.

(** With an empty [old], Python puts [new] before every character and
    at the end. *)
Fixpoint intersperse (new : string) (s : string) : string :=
  match s with
  | EmptyString => new
  | String c s' => new +:+ String c (intersperse new s')
  end.

Definition replace (s old new : string) : string :=
  match old with
  | EmptyString => intersperse new s
  | String _ _ => replace_from old new 0 s
  end.

End Py.

(** ** [Levenshtein.distance] *)

Module Levenshtein.

(** Modelled from the spec: the package [Levenshtein] is imported by the
    generator and is not part of the sources.  The spec describes its
    [distance] as the standard single-character insertion, deletion and
    substitution distance; it is given here by the usual recurrence on the
    first characters of the two strings. *)
Fixpoint distance (s : string) : string → nat :=
  fix distance_s (t : string) : nat :=
    match s, t with
    | EmptyString, _ => String.length t
    | _, EmptyString => String.length s
    | String a s', String b t' =>
        Nat.min (Nat.min (S (distance s' t)) (S (distance_s t')))
                (distance s' t' + (if Ascii.eqb a b then 0 else 1))%nat
    end.

End Levenshtein.

(** The spec's words for the same quantity: an edit script turns [s] into
    [t] by keeping, substituting, deleting or inserting one character at a
    time, and costs one unit for each change. *)
Inductive edit_script : string → string → nat → Prop :=
  | edit_done : edit_script EmptyString EmptyString 0
  | edit_keep c s t n :
      edit_script s t n → edit_script (String c s) (String c t) n
  | edit_substitute a b s t n :
      edit_script s t n → edit_script (String a s) (String b t) (S n)
  | edit_delete a s t n :
      edit_script s t n → edit_script (String a s) t (S n)
  | edit_insert b s t n :
      edit_script s t n → edit_script s (String b t) (S n).

(** ** [get_distances] *)

(** The inner loop: the row of grid [i].  Both indices come from
    [range(len(grids))], so that [grids[i]] and [grids[j]] exist. *)
Definition get_distances_row (grids : list string) (i : nat) : list Z :=
  foldl (λ i_distances j,
           if bool_decide (i = j) then i_distances ++ [0]
           else i_distances ++
                  [Z.of_nat (Levenshtein.distance (grids !!! i) (grids !!! j))])
        [] (seq 0 (length grids)).

Definition get_distances (grids : list string) : list (list Z) :=
  foldl (λ distances i, distances ++ [get_distances_row grids i])
        [] (seq 0 (length grids)).

(** The value the inner loop appends for column [j] of row [i]. *)
Definition cell (grids : list string) (i j : nat) : Z :=
  if bool_decide (i = j) then 0
  else Z.of_nat (Levenshtein.distance (grids !!! i) (grids !!! j)).

(** ** [select_distractors] *)

(** The local variables of [select_distractors] that the [while] loop
    reads and writes.  [id1] and [id2] start as [None]. *)
Record sd_locals : Type := SdLocals {
  id1 : option nat;
  id2 : option nat;
  min_distance : Z;
  found1 : bool;
  found2 : bool
}.

Definition sd_init : sd_locals :=
  {| id1 := None; id2 := None; min_distance := 1;
     found1 := false; found2 := false |}.

(** One execution of the body of [while not found2]. *)
Definition sd_body (distance_list : list Z) (s : sd_locals) : res sd_locals :=
  if Py.contains (min_distance s) distance_list then
    if negb (found1 s) then
      i ← Py.index distance_list (min_distance s);
      Ok {| id1 := Some i; id2 := id2 s; min_distance := min_distance s;
            found1 := true; found2 := found2 s |}
    else
      i ← Py.index distance_list (min_distance s);
      if negb (bool_decide (id1 s = Some i)) then
        Ok {| id1 := id1 s; id2 := Some i; min_distance := min_distance s;
              found1 := found1 s; found2 := true |}
      else
        match id1 s with
        | None => Raise TypeError
        | Some a =>
            if Py.contains (min_distance s) (Py.slice_from distance_list (a + 1)) then
              j ← Py.index_from distance_list (min_distance s) (a + 1);
              Ok {| id1 := id1 s; id2 := Some j; min_distance := min_distance s;
                    found1 := found1 s; found2 := true |}
            else
              Ok {| id1 := id1 s; id2 := id2 s; min_distance := min_distance s + 1;
                    found1 := found1 s; found2 := found2 s |}
        end
  else
    Ok {| id1 := id1 s; id2 := id2 s; min_distance := min_distance s + 1;
          found1 := found1 s; found2 := found2 s |}.

(** The [while] loop followed by [return id1, id2].  [None] means that
    the loop has not exited after [fuel] iterations. *)
Fixpoint sd_loop (fuel : nat) (distance_list : list Z) (s : sd_locals)
  : option (res (option nat * option nat)) :=
  if found2 s then Some (Ok (id1 s, id2 s))
  else
    match fuel with
    | O => None
    | S fuel' =>
        match sd_body distance_list s with
        | Ok s' => sd_loop fuel' distance_list s'
        | Raise e => Some (Raise e)
        end
    end.

(** [select_distractors(target_grid, distances)].  The target is an index
    as [generate_samples] passes it, taken from [range(len(grids))]; the
    result is the pair [(id1, id2)], each of them [None] or an index. *)
Definition select_distractors (fuel : nat) (target_grid : nat)
    (distances : list (list Z)) : option (res (option nat * option nat)) :=
  match Py.getitem distances target_grid with
  | Ok distance_list => sd_loop fuel distance_list sd_init
  | Raise e => Some (Raise e)
  end.

(** ** [generate_samples] *)

(** The body of the loop over [target_grid_id]: one triplet is appended. *)
Definition generate_samples_body (fuel : nat) (grids : list string)
    (edit_distances : list (list Z)) (target_grid_id : nat)
  : option (res (string * string * string)) :=
  match select_distractors fuel target_grid_id edit_distances with
  | None => None
  | Some (Raise e) => Some (Raise e)
  | Some (Ok (Some second_grid_id, Some third_grid_id)) =>
      Some (t ← Py.getitem grids target_grid_id;
            s ← Py.getitem grids second_grid_id;
            h ← Py.getitem grids third_grid_id;
            Ok (t, s, h))
  | Some (Ok _) => Some (Raise TypeError)
  end.

Fixpoint generate_samples_loop (fuel : nat) (grids : list string)
    (edit_distances : list (list Z)) (samples : list (string * string * string))
    (ids : list nat) : option (res (list (string * string * string))) :=
  match ids with
  | [] => Some (Ok samples)
  | target_grid_id :: ids' =>
      match generate_samples_body fuel grids edit_distances target_grid_id with
      | None => None
      | Some (Raise e) => Some (Raise e)
      | Some (Ok sample) =>
          generate_samples_loop fuel grids edit_distances (samples ++ [sample]) ids'
      end
  end.

Definition generate_samples (fuel : nat) (grids : list string)
  : option (res (list (string * string * string))) :=
  let edit_distances := get_distances grids in
  generate_samples_loop fuel grids edit_distances [] (seq 0 (length grids)).

(** ** [ReferenceGameInstanceGenerator] *)

(** The values stored in a game instance. *)
Inductive pyval : Type :=
  | VNone
  | VInt (n : Z)
  | VStr (s : string).

(** The line feed that the escape [\n] of a Python literal stands for. *)
Definition newline : string := String "010"%char EmptyString.

(** [_generate_regex].  [patterns] is the table [MULTILINGUAL_PATTERNS]
    of the localization module, which maps a language code to a dictionary
    with the keys [p1_tag], [p2_tag] and [p2_options]; [lang] is
    [self.lang].  The literal is not a raw string: [\s] stays a backslash
    followed by [s], and [\n] is a line feed. *)
Definition _generate_regex (patterns : gmap string (gmap string string))
    (lang : string) (player : string) : res pyval :=
  if String.eqb player "p1" then
    locale ← Py.dict_getitem patterns lang;
    p1_tag ← Py.dict_getitem locale "p1_tag";
    Ok (VStr ("^" +:+ p1_tag +:+ "\s*(?P<content>.+)" +:+ newline
                  +:+ "*(?P<remainder>.*)"))
  else if String.eqb player "p2" then
    locale ← Py.dict_getitem patterns lang;
    p2_tag ← Py.dict_getitem locale "p2_tag";
    locale' ← Py.dict_getitem patterns lang;
    p2_options ← Py.dict_getitem locale' "p2_options";
    Ok (VStr ("^" +:+ p2_tag +:+ "\s*(?P<content>" +:+ p2_options +:+ ")"
                  +:+ newline +:+ "*(?P<remainder>.*)"))
  else Ok VNone.

(** [_load_prompt].  [files] is the file system: the content of each
    readable path. *)
Definition _load_prompt (files : gmap string string) (lang template : string)
  : res string :=
  match files !! ("resources/initial_prompts/" +:+ lang +:+ "/" +:+ template) with
  | Some prompt => Ok prompt
  | None => Raise FileNotFoundError
  end.

(** Modelled from the spec: [add_game_instance] belongs to the base class
    [GameInstanceGenerator], which is not part of the sources.  It creates
    the instance, tagged with the per-experiment counter, inside the
    experiment and hands it to the caller, who fills it in place. *)
Definition add_game_instance (game_id : Z) : gmap string pyval :=
  {[ "game_id"%string := VInt game_id ]}.

(** Modelled from the spec: an experiment of the output, as
    [add_experiment] of the base class creates it: a name and the ordered
    list of its game instances. *)
Record experiment : Type := Experiment {
  experiment_name : string;
  game_instances : list (gmap string pyval)
}.

(** The variables of [on_generate] that the loops over the samples and
    the slots assign.  They are function-scoped: what an iteration leaves
    in them is still there when the next one starts. *)
Record og_locals : Type := OgLocals {
  target_grid : string;
  second_grid : string;
  third_grid : string;
  first_grid : string;
  target_grid_name : string;
  targets : list string;
  game_counter : Z
}.

Definition og_unbound : og_locals :=
  {| target_grid := EmptyString; second_grid := EmptyString;
     third_grid := EmptyString; first_grid := EmptyString;
     target_grid_name := EmptyString; targets := []; game_counter := 0 |}.

(** The body of [for i in [1, 2, 3]]: one game instance. *)
Definition slot_body (patterns : gmap string (gmap string string))
    (lang player_a_prompt_header player_b_prompt_header : string)
    (sample : string * string * string) (vars : og_locals) (i : Z)
  : res (og_locals * gmap string pyval) :=
  let '(target_grid, second_grid, third_grid) := sample in
  let game_instance := add_game_instance (game_counter vars) in
  let game_instance :=
    <["player_1_prompt_header"%string :=
        VStr (Py.replace
                (Py.replace
                   (Py.replace player_a_prompt_header "TARGET_GRID" target_grid)
                   "SECOND_GRID" second_grid)
                "THIRD_GRID" third_grid)]> game_instance in
  let game_instance :=
    <["player_1_target_grid"%string := VStr target_grid]> game_instance in
  let game_instance :=
    <["player_1_second_grid"%string := VStr second_grid]> game_instance in
  let game_instance :=
    <["player_1_third_grid"%string := VStr third_grid]> game_instance in
  locale ← Py.dict_getitem patterns lang;
  p2_options ← Py.dict_getitem locale "p2_options";
  let targets := Py.split "|" p2_options in
  if negb (bool_decide (length targets = 3%nat)) then Raise AssertionError
  else
    let first_grid := EmptyString in
    let target_grid_name := EmptyString in
    '(first_grid, second_grid, third_grid, target_grid_name) ←
      (if bool_decide (i = 1) then
         let first_grid := target_grid in
         target_grid_name ← Py.getitem targets 0;
         Ok (first_grid, second_grid, third_grid, target_grid_name)
       else if bool_decide (i = 2) then
         let first_grid := second_grid in
         let second_grid := target_grid in
         target_grid_name ← Py.getitem targets 1;
         Ok (first_grid, second_grid, third_grid, target_grid_name)
       else if bool_decide (i = 3) then
         let first_grid := third_grid in
         let third_grid := target_grid in
         target_grid_name ← Py.getitem targets 2;
         Ok (first_grid, second_grid, third_grid, target_grid_name)
       else Ok (first_grid, second_grid, third_grid, target_grid_name));
    let game_instance :=
      <["player_2_prompt_header"%string :=
          VStr (Py.replace
                  (Py.replace
                     (Py.replace player_b_prompt_header "FIRST_GRID" first_grid)
                     "SECOND_GRID" second_grid)
                  "THIRD_GRID" third_grid)]> game_instance in
    let game_instance :=
      <["player_2_first_grid"%string := VStr first_grid]> game_instance in
    let game_instance :=
      <["player_2_second_grid"%string := VStr second_grid]> game_instance in
    let game_instance :=
      <["player_2_third_grid"%string := VStr third_grid]> game_instance in
    let game_instance :=
      <["target_grid_name"%string := VStr target_grid_name]> game_instance in
    p1_pattern ← _generate_regex patterns lang "p1";
    let game_instance :=
      <["player_1_response_pattern"%string := p1_pattern]> game_instance in
    p2_pattern ← _generate_regex patterns lang "p2";
    let game_instance :=
      <["player_2_response_pattern"%string := p2_pattern]> game_instance in
    Ok ({| target_grid := target_grid; second_grid := second_grid;
           third_grid := third_grid; first_grid := first_grid;
           target_grid_name := target_grid_name; targets := targets;
           game_counter := game_counter vars + 1 |},
        game_instance).

(** [for i in [1, 2, 3]] for one sample: the instances are added to the
    experiment in this order. *)
Definition sample_body (patterns : gmap string (gmap string string))
    (lang player_a_prompt_header player_b_prompt_header : string)
    (acc : og_locals * list (gmap string pyval))
    (sample : string * string * string)
  : res (og_locals * list (gmap string pyval)) :=
  for_each
    (λ acc i,
       '(vars, game_instance) ←
         slot_body patterns lang player_a_prompt_header player_b_prompt_header
                   sample acc.1 i;
       Ok (vars, acc.2 ++ [game_instance]))
    acc [1; 2; 3].

(** The body of [for grids_group in grids.keys()] once the samples of
    the group are there. *)
Definition group_body (patterns : gmap string (gmap string string))
    (files : gmap string string) (lang : string) (vars : og_locals)
    (grids_group : string) (samples : list (string * string * string))
  : res (og_locals * experiment) :=
  player_a_prompt_header ← _load_prompt files lang "player_a_prompt_header.template";
  player_b_prompt_header ← _load_prompt files lang "player_b_prompt_header.template";
  let vars := {| target_grid := target_grid vars; second_grid := second_grid vars;
                 third_grid := third_grid vars; first_grid := first_grid vars;
                 target_grid_name := target_grid_name vars;
                 targets := targets vars; game_counter := 0 |} in
  '(vars, instances) ←
    for_each (sample_body patterns lang player_a_prompt_header player_b_prompt_header)
             (vars, []) samples;
  Ok (vars, {| experiment_name := grids_group; game_instances := instances |}).

(** The loop over the groups of the grids file, given in the order of
    its keys. *)
Fixpoint on_generate_loop (fuel : nat) (patterns : gmap string (gmap string string))
    (files : gmap string string) (lang : string) (vars : og_locals)
    (experiments : list experiment) (grids : list (string * list string))
  : option (res (list experiment)) :=
  match grids with
  | [] => Some (Ok experiments)
  | (grids_group, group) :: grids' =>
      match generate_samples fuel group with
      | None => None
      | Some (Raise e) => Some (Raise e)
      | Some (Ok samples) =>
          match group_body patterns files lang vars grids_group samples with
          | Raise e => Some (Raise e)
          | Ok (vars', exp) =>
              on_generate_loop fuel patterns files lang vars'
                               (experiments ++ [exp]) grids'
          end
      end
  end.

(** [on_generate]: the experiments of language [lang]. *)
Definition on_generate (fuel : nat) (patterns : gmap string (gmap string string))
    (files : gmap string string) (grids : list (string * list string))
    (lang : string) : option (res (list experiment)) :=
  on_generate_loop fuel patterns files lang og_unbound [] grids.

(** ** Vocabulary for the properties of [select_distractors] *)

(** [i] is the lowest index of [l] holding [x]. *)
Definition first_index (l : list Z) (x : Z) (i : nat) : Prop :=
  l !! i = Some x ∧ ∀ j, (j < i)%nat → l !! j ≠ Some x.

(** [x] is the smallest value of [l] that is at least [lo]. *)
Definition least_from (l : list Z) (lo : Z) (x : Z) : Prop :=
  x ∈ l ∧ lo ≤ x ∧ ∀ y, y ∈ l → lo ≤ y → x ≤ y.

(** The row holds a distance of at least 1 at two different indices. *)
Definition two_positive (l : list Z) : Prop :=
  ∃ (p q : nat) (x y : Z),
    p ≠ q ∧ l !! p = Some x ∧ l !! q = Some y ∧ 1 ≤ x ∧ 1 ≤ y.

(** What the returned pair satisfies on the row [l]: [i] is the lowest
    index of the smallest distance [d1 ≥ 1]; [j] is the next index holding
    [d1] if there is one and otherwise the lowest index of the next larger
    distance [d2]. *)
Definition sd_post (l : list Z) (i j : nat) : Prop :=
  ∃ d1 d2 : Z,
    l !! i = Some d1 ∧ l !! j = Some d2 ∧ 1 ≤ d1 ∧ d1 ≤ d2 ∧ i ≠ j ∧
    first_index l d1 i ∧ least_from l 1 d1 ∧
    (∀ k x, l !! k = Some x → 1 ≤ x → k ≠ i → k ≠ j → d2 ≤ x) ∧
    ((d2 = d1 ∧ (i < j)%nat ∧ ∀ k, (i < k < j)%nat → l !! k ≠ Some d1) ∨
     (d1 < d2 ∧ first_index l d2 j ∧ ∀ k, l !! k = Some d1 → k = i)).

(** The loop invariant of [while not found2]. *)
Definition sd_inv (l : list Z) (s : sd_locals) : Prop :=
  1 ≤ min_distance s ∧
  if found2 s then
    ∃ i j, id1 s = Some i ∧ id2 s = Some j ∧ sd_post l i j
  else if found1 s then
    ∃ i d1, id1 s = Some i ∧ first_index l d1 i ∧ 1 ≤ d1 ∧ d1 ≤ min_distance s ∧
            ∀ k x, l !! k = Some x → 1 ≤ x → x < min_distance s → k = i
  else
    id1 s = None ∧ ∀ x, x ∈ l → 1 ≤ x → min_distance s ≤ x.

(** What one iteration changes when it does not exit the loop. *)
Definition sd_progress (s s' : sd_locals) : Prop :=
  found2 s' = true ∨
  (found1 s = false ∧ found1 s' = true ∧ min_distance s' = min_distance s) ∨
  (found1 s' = found1 s ∧ min_distance s' = min_distance s + 1).

(** The number of iterations after which the loop has exited when [hi]
    bounds two positive distances of the row. *)
Definition sd_measure (hi : Z) (s : sd_locals) : nat :=
  (2 * Z.to_nat (hi + 1 - min_distance s) + (if found1 s then 0 else 1))%nat.

(** ** Distance matrices *)

(** [m[i][j]] *)
Definition entry (m : list (list Z)) (i j : nat) : option Z :=
  m !! i ≫= (λ row, row !! j).

(** A distance matrix in the sense of the data model: square, with
    non-negative entries, a zero diagonal and symmetric. *)
Record is_distance_matrix (m : list (list Z)) : Prop := {
  dm_square : ∀ i row, m !! i = Some row → length row = length m;
  dm_nonneg : ∀ i j x, entry m i j = Some x → 0 ≤ x;
  dm_diagonal : ∀ i, (i < length m)%nat → entry m i i = Some 0;
  dm_symmetric : ∀ i j, entry m i j = entry m j i
}.

(** The minimality property with every index other than the target and
    the two results counted as a competitor, whatever its distance. *)
Definition nearest_among_all (distances : list (list Z)) (t : nat) : Prop :=
  ∃ (fuel i j : nat) (d1 d2 : Z) (row : list Z),
    distances !! t = Some row ∧
    select_distractors fuel t distances = Some (Ok (Some i, Some j)) ∧
    entry distances t i = Some d1 ∧ entry distances t j = Some d2 ∧
    d1 ≤ d2 ∧
    least_from row 1 d1 ∧ first_index row d1 i ∧
    (∀ k x, k ≠ t → k ≠ i → k ≠ j → entry distances t k = Some x → ¬ x < d2).

(** The grids of the worked example and a group with a repeated grid. *)
Definition grids_example : list string := ["00"; "01"; "11"]%string.
Definition grids_repeated : list string := ["00"; "00"; "01"; "11"]%string.
Definition grids_identical : list string := ["0"; "0"; "0"]%string.

(** The states of the loop on the row [0, 1, 2] of the worked example. *)
Definition example_state1 : sd_locals :=
  {| id1 := Some 1%nat; id2 := None; min_distance := 1;
     found1 := true; found2 := false |}.
Definition example_state2 : sd_locals :=
  {| id1 := Some 1%nat; id2 := None; min_distance := 2;
     found1 := true; found2 := false |}.
Definition example_state3 : sd_locals :=
  {| id1 := Some 1%nat; id2 := Some 2%nat; min_distance := 2;
     found1 := true; found2 := true |}.

(** The locale table of the worked example and two degenerate ones. *)
Definition locale_of (p1_tag p2_tag p2_options : string) : gmap string string :=
  <["p1_tag"%string := p1_tag]>
    (<["p2_tag"%string := p2_tag]> {[ "p2_options"%string := p2_options ]}).

Definition patterns_example : gmap string (gmap string string) :=
  {[ "en"%string := locale_of "Expression:" "Answer:" "first|second|third" ]}.

Definition patterns_empty_token : gmap string (gmap string string) :=
  {[ "en"%string := locale_of "Expression:" "Answer:" "first||third" ]}.

Definition patterns_two_tokens : gmap string (gmap string string) :=
  {[ "en"%string := locale_of "Expression:" "Answer:" "first|second" ]}.

(** [p2_options] splits on the bar into exactly three tokens, none of
    them empty. *)
Definition three_nonempty_tokens (p2_options : string) : Prop :=
  ∃ a b c, Py.split "|" p2_options = [a; b; c] ∧
           a ≠ EmptyString ∧ b ≠ EmptyString ∧ c ≠ EmptyString.

(** The prompt templates of the worked example. *)
Definition files_example : gmap string string :=
  <["resources/initial_prompts/en/player_a_prompt_header.template"%string :=
      "Target: TARGET_GRID Second: SECOND_GRID Third: THIRD_GRID"%string]>
    {[ "resources/initial_prompts/en/player_b_prompt_header.template"%string :=
         "First: FIRST_GRID Second: SECOND_GRID Third: THIRD_GRID"%string ]}.

(** The grid fields of a game instance as the two players see them, and
    the name of the target's slot. *)
Definition player_1_grids (game_instance : gmap string pyval)
  : option pyval * option pyval * option pyval :=
  (game_instance !! "player_1_target_grid"%string,
   game_instance !! "player_1_second_grid"%string,
   game_instance !! "player_1_third_grid"%string).

Definition player_2_grids (game_instance : gmap string pyval)
  : option pyval * option pyval * option pyval :=
  (game_instance !! "player_2_first_grid"%string,
   game_instance !! "player_2_second_grid"%string,
   game_instance !! "player_2_third_grid"%string).

Definition slot_name (game_instance : gmap string pyval) : option pyval :=
  game_instance !! "target_grid_name"%string.

(** The three grids [a], [b], [c] as stored values. *)
Definition stored (a b c : string) : option pyval * option pyval * option pyval :=
  (Some (VStr a), Some (VStr b), Some (VStr c)).

(** ** Response patterns as regular expressions *)

(** The part of the pattern language of Python's [re] module that the
    generated patterns are written in: literal characters, [.], [^], [$],
    the escape [\s], escaped punctuation, the greedy repetitions [*], [+]
    and [?] of a single character, alternation, and plain and named groups.
    A pattern that is invalid, or that uses anything else (character sets,
    counted or lazy repetition, repeated groups, other escapes and group
    forms), has no compiled form. *)
Module Re.

Inductive regex : Type :=
  | Empty
  | Char (c : ascii)
  | AnyChar
  | Space
  | Bol
  | Eol
  | Cat (r1 r2 : regex)
  | Alt (r1 r2 : regex)
  | Star (r : regex)
  | Plus (r : regex)
  | Opt (r : regex)
  | Group (name : option string) (r : regex).

Definition line_feed : ascii := "010"%char.

(** The characters that [\s] matches, among the first 256 code points. *)
Definition is_space (c : ascii) : bool :=
  let n := nat_of_ascii c in
  ((9 <=? n) && (n <=? 13) || (28 <=? n) && (n <=? 32)
   || (n =? 133) || (n =? 160))%nat.

(** The characters with a special meaning in a pattern. *)
Definition is_meta (c : ascii) : bool :=
  existsb (Ascii.eqb c)
    ["."; "^"; "$"; "*"; "+"; "?"; "{"; "}"; "["; "]"; "\"; "|"; "("; ")"]%char.

(** A string without special characters stands for itself in a pattern. *)
Fixpoint plain (s : string) : bool :=
  match s with
  | EmptyString => true
  | String c s' => negb (is_meta c) && plain s'
  end.

Definition is_alnum (c : ascii) : bool :=
  let n := nat_of_ascii c in
  ((48 <=? n) && (n <=? 57) || (65 <=? n) && (n <=? 90)
   || (97 <=? n) && (n <=? 122))%nat.

Definition is_digit (c : ascii) : bool :=
  let n := nat_of_ascii c in ((48 <=? n) && (n <=? 57))%nat.

(** ASCII punctuation: a backslash before it makes it a literal. *)
Definition is_punct (c : ascii) : bool :=
  let n := nat_of_ascii c in
  ((33 <=? n) && (n <=? 47) || (58 <=? n) && (n <=? 64)
   || (91 <=? n) && (n <=? 96) || (123 <=? n) && (n <=? 126))%nat.

(** A sequence of items and a list of alternatives as one expression. *)
Definition seq_of (items : list regex) : regex := foldr Cat Empty items.

Fixpoint alt_of (r : regex) (alternatives : list regex) : regex :=
  match alternatives with
  | [] => r
  | r' :: rest => Alt r (alt_of r' rest)
  end.

Fixpoint chars (s : string) : list regex :=
  match s with
  | EmptyString => []
  | String c s' => Char c :: chars s'
  end.

(** *** Compilation *)

(** A group under construction: its name, the alternatives that are
    complete, and the items of the current alternative, last item first. *)
Record frame : Type := Frame {
  f_name : option string;
  f_alts : list regex;
  f_items : list regex
}.

(** Where the reader is inside a multi-character token: after a
    backslash, after the successive characters of the opening of a named
    group, and inside its name, which is a letter or an underscore followed
    by letters, digits and underscores, and which no earlier group has. *)
Inductive mode : Type :=
  | Normal
  | Escape
  | Open1
  | Open2
  | Open3
  | Name (acc : string).

(** The state of the reader: the group being read, the groups around it,
    whether the last item may take a repetition, and the group names that
    are taken. *)
Record reader : Type := Reader {
  r_mode : mode;
  r_current : frame;
  r_enclosing : list frame;
  r_repeatable : bool;
  r_names : list string
}.

Definition reader_init : reader :=
  {| r_mode := Normal;
     r_current := {| f_name := None; f_alts := []; f_items := [] |};
     r_enclosing := []; r_repeatable := false; r_names := [] |}.

Definition frame_regex (f : frame) : regex :=
  match f_alts f ++ [seq_of (rev (f_items f))] with
  | [] => Empty
  | r :: rest => alt_of r rest
  end.

Definition push_item (st : reader) (item : regex) (repeatable : bool) : reader :=
  {| r_mode := Normal;
     r_current := {| f_name := f_name (r_current st);
                     f_alts := f_alts (r_current st);
                     f_items := item :: f_items (r_current st) |};
     r_enclosing := r_enclosing st; r_repeatable := repeatable;
     r_names := r_names st |}.

(** The items that match exactly one character. *)
Definition single_char (r : regex) : bool :=
  match r with
  | Char _ | AnyChar | Space => true
  | _ => false
  end.

(** A repetition applies to the last item; only single-character items
    may be repeated here, and only once. *)
Definition repeat_last (st : reader) (rep : regex → regex) : option reader :=
  if r_repeatable st then
    match f_items (r_current st) with
    | item :: items =>
        if single_char item then
          Some {| r_mode := Normal;
                  r_current := {| f_name := f_name (r_current st);
                                  f_alts := f_alts (r_current st);
                                  f_items := rep item :: items |};
                  r_enclosing := r_enclosing st; r_repeatable := false;
                  r_names := r_names st |}
        else None
    | [] => None
    end
  else None.

Definition open_group (st : reader) (name : option string) : reader :=
  {| r_mode := Normal;
     r_current := {| f_name := name; f_alts := []; f_items := [] |};
     r_enclosing := r_current st :: r_enclosing st; r_repeatable := false;
     r_names := match name with
                | Some n => n :: r_names st
                | None => r_names st
                end |}.

Definition close_group (st : reader) : option reader :=
  match r_enclosing st with
  | [] => None
  | parent :: enclosing =>
      Some {| r_mode := Normal;
              r_current :=
                {| f_name := f_name parent; f_alts := f_alts parent;
                   f_items := Group (f_name (r_current st)) (frame_regex (r_current st))
                                :: f_items parent |};
              r_enclosing := enclosing; r_repeatable := true;
              r_names := r_names st |}
  end.

Definition next_alternative (st : reader) : reader :=
  {| r_mode := Normal;
     r_current := {| f_name := f_name (r_current st);
                     f_alts := f_alts (r_current st)
                                 ++ [seq_of (rev (f_items (r_current st)))];
                     f_items := [] |};
     r_enclosing := r_enclosing st; r_repeatable := false;
     r_names := r_names st |}.

Definition set_mode (st : reader) (m : mode) : reader :=
  {| r_mode := m; r_current := r_current st;
     r_enclosing := r_enclosing st; r_repeatable := r_repeatable st;
     r_names := r_names st |}.

(** One character read outside a multi-character token. *)
Definition read_normal (st : reader) (c : ascii) : option reader :=
  if Ascii.eqb c "\" then Some (set_mode st Escape)
  else if Ascii.eqb c "(" then Some (set_mode st Open1)
  else if Ascii.eqb c ")" then close_group st
  else if Ascii.eqb c "|" then Some (next_alternative st)
  else if Ascii.eqb c "*" then repeat_last st Star
  else if Ascii.eqb c "+" then repeat_last st Plus
  else if Ascii.eqb c "?" then repeat_last st Opt
  else if Ascii.eqb c "." then Some (push_item st AnyChar true)
  else if Ascii.eqb c "^" then Some (push_item st Bol false)
  else if Ascii.eqb c "$" then Some (push_item st Eol false)
  else if Ascii.eqb c "[" then None
  else if Ascii.eqb c "{" then None
  else Some (push_item st (Char c) true).

(** One character read. *)
Definition read (st : reader) (c : ascii) : option reader :=
  match r_mode st with
  | Normal => read_normal st c
  | Escape =>
      if Ascii.eqb c "s" then Some (push_item st Space true)
      else if is_punct c then Some (push_item st (Char c) true)
      else None
  | Open1 =>
      if Ascii.eqb c "?" then Some (set_mode st Open2)
      else read_normal (open_group st None) c
  | Open2 => if Ascii.eqb c "P" then Some (set_mode st Open3) else None
  | Open3 => if Ascii.eqb c "<" then Some (set_mode st (Name EmptyString)) else None
  | Name acc =>
      if Ascii.eqb c ">" then
        match acc with
        | EmptyString => None
        | String first _ =>
            if is_digit first || existsb (String.eqb acc) (r_names st) then None
            else Some (open_group st (Some acc))
        end
      else if is_alnum c || Ascii.eqb c "_"
      then Some (set_mode st (Name (acc +:+ String c EmptyString)))
      else None
  end.

Fixpoint read_all (st : reader) (s : string) : option reader :=
  match s with
  | EmptyString => Some st
  | String c s' =>
      match read st c with
      | Some st' => read_all st' s'
      | None => None
      end
  end.

(** [re.compile(pattern)] *)
Definition compile (pattern : string) : option regex :=
  match read_all reader_init pattern with
  | Some st =>
      match r_mode st, r_enclosing st with
      | Normal, [] => Some (frame_regex (r_current st))
      | _, _ => None
      end
  | None => None
  end.

(** *** Matching *)

(** The part of [s] in front of its suffix [s']. *)
Definition consumed (s s' : string) : string :=
  String.substring 0 (String.length s - String.length s') s.

Definition set_group (name : option string) (text : string)
    (groups : gmap string string) : gmap string string :=
  match name with
  | Some n => <[n := text]> groups
  | None => groups
  end.

(** The greedy repetition of [step]: one more repetition is tried before
    the continuation [k]; [budget] bounds the number of repetitions by the
    length of what is left, since each must move forward. *)
Definition star_loop
    (step : nat → string → gmap string string →
            (nat → string → gmap string string → option (gmap string string)) →
            option (gmap string string))
    (k : nat → string → gmap string string → option (gmap string string))
  : nat → nat → string → gmap string string → option (gmap string string) :=
  fix repeat (budget : nat) (pos : nat) (s : string)
      (groups : gmap string string) {struct budget} :=
    match budget with
    | O => k pos s groups
    | S budget' =>
        match step pos s groups
                (λ pos' s' groups',
                   if Nat.ltb pos pos' then repeat budget' pos' s' groups'
                   else None)
        with
        | Some result => Some result
        | None => k pos s groups
        end
    end.

(** The backtracking matcher: [exec r pos s groups k] matches [r] at
    position [pos], where [s] is what is left of the subject, and hands the
    position, the rest and the groups to [k]; when [k] fails, the next way
    of matching [r] is tried, in the order of the [re] module: the left
    alternative before the right one, one more repetition before none. *)
Fixpoint exec (r : regex) (pos : nat) (s : string) (groups : gmap string string)
    (k : nat → string → gmap string string → option (gmap string string))
    {struct r} : option (gmap string string) :=
  match r with
  | Empty => k pos s groups
  | Char c =>
      match s with
      | String c' s' => if Ascii.eqb c c' then k (S pos) s' groups else None
      | EmptyString => None
      end
  | AnyChar =>
      match s with
      | String c' s' => if Ascii.eqb c' line_feed then None else k (S pos) s' groups
      | EmptyString => None
      end
  | Space =>
      match s with
      | String c' s' => if is_space c' then k (S pos) s' groups else None
      | EmptyString => None
      end
  | Bol => if Nat.eqb pos 0 then k pos s groups else None
  | Eol =>
      match s with
      | EmptyString => k pos s groups
      | String c' EmptyString =>
          if Ascii.eqb c' line_feed then k pos s groups else None
      | String _ (String _ _) => None
      end
  | Cat r1 r2 =>
      exec r1 pos s groups (λ pos' s' groups', exec r2 pos' s' groups' k)
  | Alt r1 r2 =>
      match exec r1 pos s groups k with
      | Some result => Some result
      | None => exec r2 pos s groups k
      end
  | Star r1 => star_loop (exec r1) k (String.length s) pos s groups
  | Plus r1 =>
      exec r1 pos s groups
        (λ pos' s' groups',
           star_loop (exec r1) k (String.length s') pos' s' groups')
  | Opt r1 =>
      match exec r1 pos s groups k with
      | Some result => Some result
      | None => k pos s groups
      end
  | Group name r1 =>
      exec r1 pos s groups
        (λ pos' s' groups', k pos' s' (set_group name (consumed s s') groups'))
  end.

(** [pattern.match(subject)]: the named groups of the match, if any. *)
Definition match_ (r : regex) (subject : string) : option (gmap string string) :=
  exec r 0 subject ∅ (λ _ _ groups, Some groups).

(** Modelled from the spec: the game master that applies a response
    pattern to a player's answer is not part of the sources.  The spec says
    that the pattern is matched against the response and that its groups
    [content] and [remainder] are read; this is taken to be
    [re.match(pattern, subject)] without flags.  The outer [None] is a
    pattern without a compiled form. *)
Definition match_pattern (pattern subject : string)
  : option (option (gmap string string)) :=
  match compile pattern with
  | Some r => Some (match_ r subject)
  | None => None
  end.

End Re.

(** ** Vocabulary for the properties of the response pattern *)

Definition starts_with_space (s : string) : bool :=
  match s with
  | String c _ => Re.is_space c
  | EmptyString => false
  end.

Fixpoint all_space (s : string) : bool :=
  match s with
  | EmptyString => true
  | String c s' => Re.is_space c && all_space s'
  end.

(** A position name that is not empty and does not start with
    whitespace. *)
Definition solid (name : string) : bool :=
  match name with
  | String c _ => negb (Re.is_space c)
  | EmptyString => false
  end.

(** The first of the position names that the text starts with. *)
Definition first_name (names : list string) (text : string) : option string :=
  List.find (λ name, String.prefix name text) names.

(** The player-2 pattern of language [lang] accepts the tag followed by
    any position name and captures the name in [content]. *)
Definition p2_pattern_accepts (patterns : gmap string (gmap string string))
    (lang : string) : Prop :=
  ∀ locale tag opts n0 n1 n2 name,
    patterns !! lang = Some locale →
    locale !! "p2_tag"%string = Some tag →
    locale !! "p2_options"%string = Some opts →
    Py.split "|" opts = [n0; n1; n2] →
    name ∈ [n0; n1; n2] →
    ∃ pattern groups,
      _generate_regex patterns lang "p2" = Ok (VStr pattern) ∧
      Re.match_pattern pattern (tag +:+ name) = Some (Some groups) ∧
      groups !! "content"%string = Some name.

(** A locale whose tag has parentheses in it, and one whose first
    position name starts the second. *)
Definition patterns_parenthesised : gmap string (gmap string string) :=
  {[ "en"%string := locale_of "Expression:" "Answer (B):" "first|second|third" ]}.

Definition patterns_prefixed : gmap string (gmap string string) :=
  {[ "en"%string := locale_of "Expression:" "Answer:" "left|leftmost|right" ]}.

(** The reader after the plain text [w]. *)
Definition read_plain_text (st : Re.reader) (w : string) : Re.reader :=
  {| Re.r_mode := Re.Normal;
     Re.r_current :=
       {| Re.f_name := Re.f_name (Re.r_current st);
          Re.f_alts := Re.f_alts (Re.r_current st);
          Re.f_items := rev (Re.chars w) ++ Re.f_items (Re.r_current st) |};
     Re.r_enclosing := Re.r_enclosing st;
     Re.r_repeatable :=
       match w with
       | EmptyString => Re.r_repeatable st
       | String _ _ => true
       end;
     Re.r_names := Re.r_names st |}.

(** The compiled player-2 pattern for the tag [tag] and the position
    names [n0], [n1] and [n2]. *)
Definition p2_tail : list Re.regex :=
  [Re.Star (Re.Char Re.line_feed);
   Re.Group (Some "remainder"%string) (Re.seq_of [Re.Star Re.AnyChar])].

Definition p2_names (n0 n1 n2 : string) : Re.regex :=
  Re.Alt (Re.seq_of (Re.chars n0))
         (Re.Alt (Re.seq_of (Re.chars n1)) (Re.seq_of (Re.chars n2))).

(** What follows the tag and the whitespace in the compiled pattern. *)
Definition p2_answer (n0 n1 n2 : string) : Re.regex :=
  Re.Cat (Re.Group (Some "content"%string) (p2_names n0 n1 n2)) (Re.seq_of p2_tail).

Definition p2_regex (tag n0 n1 n2 : string) : Re.regex :=
  Re.seq_of ([Re.Bol] ++ Re.chars tag ++
             [Re.Star Re.Space;
              Re.Group (Some "content"%string) (p2_names n0 n1 n2)] ++ p2_tail).

(** * Further properties: definitions *)

(** ** Order of the candidates of [select_distractors] *)

(** The pair (distance, index) [(x, k)] comes strictly after [(d, i)]:
    the distance is larger, or it is the same at a later index. *)
Definition comes_after (d : Z) (i : nat) (x : Z) (k : nat) : Prop :=
  d < x ∨ (d = x ∧ (i < k)%nat).

(** The iterations that the loop still runs from the state [s] when the
    second distractor is at distance [d2]. *)
Definition sd_remaining (d2 : Z) (s : sd_locals) : Z :=
  d2 - min_distance s + (if found1 s then 1 else 2).

(** ** Vocabulary for the output of [on_generate] *)

(** The fields of a game instance. *)
Definition instance_fields : gset string :=
  list_to_set
    ["game_id"; "player_1_prompt_header"; "player_1_target_grid";
     "player_1_second_grid"; "player_1_third_grid"; "player_2_prompt_header";
     "player_2_first_grid"; "player_2_second_grid"; "player_2_third_grid";
     "target_grid_name"; "player_1_response_pattern";
     "player_2_response_pattern"]%string.

(** The three slots of player 2, in their order. *)
Definition player_2_slots (game_instance : gmap string pyval) : list (option pyval) :=
  [game_instance !! "player_2_first_grid"%string;
   game_instance !! "player_2_second_grid"%string;
   game_instance !! "player_2_third_grid"%string].

(** The instance at position [k] of an experiment over the group [group],
    for the position names [names]: it is numbered [k], its target is grid [k / 3] of the group, and
    the target sits in the slot [k mod 3] of player 2, which is the slot
    that [target_grid_name] names. *)
Definition instance_at (group names : list string) (k : nat)
    (game_instance : gmap string pyval) : Prop :=
  game_instance !! "game_id"%string = Some (VInt (Z.of_nat k)) ∧
  (VStr <$> group !! (k `div` 3)%nat) = game_instance !! "player_1_target_grid"%string ∧
  (VStr <$> names !! (k `mod` 3)%nat) = slot_name game_instance ∧
  player_2_slots game_instance !! (k `mod` 3)%nat
  = Some (game_instance !! "player_1_target_grid"%string).

(** A prompt template with its three placeholders replaced one after the
    other, [first_placeholder] first. *)
Definition render (template first_placeholder a b c : string) : string :=
  Py.replace (Py.replace (Py.replace template first_placeholder a) "SECOND_GRID" b)
             "THIRD_GRID" c.

(** The prompts of a game instance show the grids that the instance
    stores for the same player, in the stored order, and player 2 is shown
    the grids of player 1 in some order. *)
Definition instance_shown (pa pb : string) (game_instance : gmap string pyval) : Prop :=
  ∃ t s h f s' h',
    player_1_grids game_instance = stored t s h ∧
    player_2_grids game_instance = stored f s' h' ∧
    [f; s'; h'] ≡ₚ [t; s; h] ∧
    game_instance !! "player_1_prompt_header"%string
      = Some (VStr (render pa "TARGET_GRID" t s h)) ∧
    game_instance !! "player_2_prompt_header"%string
      = Some (VStr (render pb "FIRST_GRID" f s' h')).

(** * The backend for OpenAI-compatible remote APIs

    A shallow embedding of [clemcore/backends/openai_compatible_api.py].
    The remote side is an argument: the credentials that [load_credentials]
    returns, the answer of the server to the request for its models, and its
    answer to each chat request. *)

From stdpp Require Import sorting.

Local Open Scope Z_scope.

Module Backend.

Inductive error : Type :=
  | KeyError
  | IndexError
  | AttributeError (message : string)
  | APIError (detail : string)
  | JSONDecodeError.

Inductive outcome (A : Type) : Type :=
  | Returned (a : A)
  | Raised (e : error).

Arguments Returned {A} a.
Arguments Raised {A} e.


(** [d[k]] *)
Definition getitem {A : Type} (d : gmap string A) (k : string) : outcome A :=
  match d !! k with
  | Some a => Returned a
  | None => Raised KeyError
  end.

(** ** [GenericOpenAI] *)



(** An entry of the list of models of the server. *)
Record model_item : Type := ModelItem {
  item_id : string;
  owned_by : string
}.

(** The order of [sorted] on strings: by code points, from the left. *)
Definition str_le (a b : string) : Prop := String.leb a b = true.

#[global] Instance str_le_dec : RelDecision str_le.
Proof. intros a b. unfold str_le. apply _. Defined.

(** [sorted(names)] *)
Definition sorted (names : list string) : list string := merge_sort str_le names.

(** [list_models], from the answer [models] of the server to
    [self.client.models.list()]: its list [data], or the error of the
    call. *)
Definition list_models (models : outcome (list model_item)) : outcome (list string) :=
  match models with
  | Raised e => Raised e
  | Returned data =>
      let names := item_id <$> data in
      let names := sorted names in
      Returned names
  end.

(** ** [GenericOpenAIModel] *)

(** [s.lstrip()], [s.rstrip()] and [s.strip()]: whitespace is what
    [str.isspace] accepts. *)
Fixpoint lstrip (s : string) : string :=
  match s with
  | EmptyString => EmptyString
  | String c s' => if Re.is_space c then lstrip s' else s
  end.

Fixpoint rstrip (s : string) : string :=
  match s with
  | EmptyString => EmptyString
  | String c s' =>
      match rstrip s' with
      | EmptyString => if Re.is_space c then EmptyString else String c EmptyString
      | String c' r => String c (String c' r)
      end
  end.

Definition strip (s : string) : string := rstrip (lstrip s).

(** The message of a choice of a chat completion; its content may be
    missing. *)
Record chat_message : Type := ChatMessage {
  role : string;
  content : option string
}.

(** A chat completion: the messages of its choices and its JSON text. *)
Record api_response : Type := ApiResponse {
  choices : list chat_message;
  json : string
}.

(** A chat request as [generate_response] sends it. *)
Record request (T : Type) : Type := Request {
  req_model : string;
  req_messages : list (gmap string string);
  req_temperature : T;
  req_max_tokens : Z
}.

Arguments Request {T} _ _ _ _.
Arguments req_model {T} _.
Arguments req_messages {T} _.
Arguments req_temperature {T} _.
Arguments req_max_tokens {T} _.

(** The model: its specification and its generation arguments. *)
Record model (T : Type) : Type := Model {
  model_id : string;
  get_temperature : T;
  get_max_tokens : Z
}.

Arguments Model {T} _ _ _.
Arguments model_id {T} _.
Arguments get_temperature {T} _.
Arguments get_max_tokens {T} _.

(** What has happened so far: the requests sent, in their order, and the
    seconds slept between attempts. *)
Record world (T : Type) : Type := World {
  sent : list (request T);
  slept : Z
}.

Arguments World {T} _ _.
Arguments sent {T} _.
Arguments slept {T} _.

Section Generate.

(** [T] is the type of the temperature and [J] the type of parsed JSON;
    [server n r] is the answer of the remote side to the request [r] when
    [n] requests came before it; [json_loads] is [json.loads]. *)
Context {T J : Type}.
Variable server : nat → request T → outcome api_response.
Variable json_loads : string → outcome J.

(** The body of [generate_response]. *)
Definition generate_response_body (m : model T) (messages : list (gmap string string))
    (w : world T)
  : outcome (list (gmap string string) * J * string) * world T :=
  let prompt := messages in
  let r := Request (model_id m) prompt (get_temperature m) (get_max_tokens m) in
  let w' := {| sent := sent w ++ [r]; slept := slept w |} in
  match server (length (sent w)) r with
  | Raised e => (Raised e, w')
  | Returned api_response =>
      match choices api_response !! 0%nat with
      | None => (Raised IndexError, w')
      | Some message =>
          if negb (String.eqb (role message) "assistant") then
            (Raised (AttributeError
                       ("Response message role is " +:+ role message
                          +:+ " but should be 'assistant'")), w')
          else
            match content message with
            | None =>
                (Raised (AttributeError "'NoneType' object has no attribute 'strip'"),
                 w')
            | Some text =>
                let response_text := strip text in
                match json_loads (json api_response) with
                | Raised e => (Raised e, w')
                | Returned response => (Returned (prompt, response, response_text), w')
                end
            end
      end
  end.


(** The decorator [ensure_messages_format] of [clemcore.backends.utils],
    which is not part of the sources, is an argument. *)
Variable ensure_messages_format :
  (list (gmap string string) → world T →
   outcome (list (gmap string string) * J * string) * world T) →
  list (gmap string string) → world T →
  outcome (list (gmap string string) * J * string) * world T.


End Generate.

End Backend.

(** ** Vocabulary for the properties of the backend *)

Fixpoint ends_with_space (s : string) : bool :=
  match s with
  | EmptyString => false
  | String c EmptyString => Re.is_space c
  | String _ s' => ends_with_space s'
  end.


(** A server that fails once, then answers in the wrong role, then
    answers as the assistant; [json.loads] left as the identity. *)
Definition server_example (n : nat) (r : Backend.request Z)
  : Backend.outcome Backend.api_response :=
  match n with
  | O => Backend.Raised (Backend.APIError "timeout")
  | S O =>
      Backend.Returned
        {| Backend.choices :=
             [{| Backend.role := "user"; Backend.content := Some "second"%string |}];
           Backend.json := "{}" |}
  | S (S _) =>
      Backend.Returned
        {| Backend.choices :=
             [{| Backend.role := "assistant";
                 Backend.content := Some ("  second " +:+ newline)%string |}];
           Backend.json := "{}" |}
  end.

Definition json_loads_example (text : string) : Backend.outcome string :=
  Backend.Returned text.

Definition model_example : Backend.model Z :=
  Backend.Model "model-a" 0 100.

Definition world_init : Backend.world Z :=
  {| Backend.sent := []; Backend.slept := 0 |}.



(** * Properties *)

(** ** The list operations *)

Lemma contains_elem_of x l : Py.contains x l = true ↔ x ∈ l.
Proof.
  unfold Py.contains. induction l as [|y l IH]; simpl.
  - split; [discriminate | intros H; inversion H].
  - rewrite orb_true_iff, IH, Z.eqb_eq, elem_of_cons. reflexivity.
Qed.

Lemma contains_not_elem_of x l : Py.contains x l = false ↔ x ∉ l.
Proof.
  rewrite <- contains_elem_of. destruct (Py.contains x l); split; congruence.
Qed.

Lemma find_index_first x l i :
  Py.find_index x l = Some i ↔ first_index l x i.
Proof.
  unfold first_index. revert i. induction l as [|y l IH]; intros i; simpl.
  - split; [discriminate | intros [H _]; discriminate].
  - destruct (Z.eqb_spec x y) as [->|Hne].
    + split.
      * intros [= <-]. split; [reflexivity | lia].
      * intros [Hi Hlt]. destruct i as [|i]; [reflexivity|].
        exfalso. apply (Hlt 0%nat); [lia | reflexivity].
    + destruct (Py.find_index x l) as [k|] eqn:Hk; simpl.
      * split.
        -- intros [= <-]. destruct (proj1 (IH k) eq_refl) as [Hk1 Hk2].
           split; [exact Hk1|].
           intros [|j] Hj; simpl; [congruence | apply Hk2; lia].
        -- intros [Hi Hlt]. destruct i as [|i]; simpl in Hi; [congruence|].
           assert (Some k = Some i) as [= ->]; [|reflexivity].
           apply IH. split; [exact Hi|].
           intros j Hj. apply (Hlt (S j)). lia.
      * split; [discriminate|].
        intros [Hi Hlt]. destruct i as [|i]; simpl in Hi; [congruence|].
        assert (None = Some i) as Habs; [|discriminate].
        apply IH. split; [exact Hi|]. intros j Hj. apply (Hlt (S j)). lia.
Qed.

Lemma find_index_is_Some x l : x ∈ l → is_Some (Py.find_index x l).
Proof.
  induction l as [|y l IH]; intros H; simpl.
  - inversion H.
  - destruct (Z.eqb_spec x y); [eauto|].
    apply elem_of_cons in H as [?|H]; [congruence|].
    destruct (IH H) as [k ->]. simpl. eauto.
Qed.

Lemma first_index_unique l x i j :
  first_index l x i → first_index l x j → i = j.
Proof.
  intros [Hi Hi'] [Hj Hj'].
  destruct (Nat.lt_trichotomy i j) as [H|[H|H]]; [|exact H|].
  - destruct (Hj' i H Hi).
  - destruct (Hi' j H Hj).
Qed.

(** ** The loop of [select_distractors] *)

Lemma sd_inv_init l : sd_inv l sd_init.
Proof.
  unfold sd_inv, sd_init; simpl. split; [lia|]. split; [reflexivity|]. auto.
Qed.

Lemma sd_body_inv l s :
  sd_inv l s → found2 s = false →
  ∃ s', sd_body l s = Ok s' ∧ sd_inv l s' ∧ sd_progress s s'.
Proof.
  destruct s as [oi oj m f1 f2]. unfold sd_inv, sd_body, sd_progress; simpl.
  intros [Hm Hinv] ->.
  destruct (Py.contains m l) eqn:Hin.
  - apply contains_elem_of in Hin.
    destruct (find_index_is_Some _ _ Hin) as [i0 Hi0].
    unfold Py.index. rewrite Hi0. simpl.
    apply find_index_first in Hi0.
    destruct f1; simpl.
    + destruct Hinv as (i & d1 & -> & Hfirst & Hd1 & Hd1m & Hlow).
      destruct (decide (Some i = Some i0)) as [Heq|Hne].
      * injection Heq as <-. rewrite bool_decide_true by reflexivity. simpl.
        assert (d1 = m) as -> by (destruct Hfirst, Hi0; congruence).
        destruct (Py.contains m (Py.slice_from l (i + 1))) eqn:Hlater.
        -- apply contains_elem_of in Hlater.
           destruct (find_index_is_Some _ _ Hlater) as [j' Hj'].
           unfold Py.index_from, Py.slice_from in *. rewrite Hj'. simpl.
           apply find_index_first in Hj' as [Hj1 Hj2].
           rewrite lookup_drop in Hj1.
           eexists. split; [reflexivity|]. simpl. split; [|auto].
           split; [lia|]. exists i, (i + 1 + j')%nat.
           split; [reflexivity|]. split; [reflexivity|].
           exists m, m.
           assert (l !! i = Some m) as Hfi by apply Hfirst.
           assert (least_from l 1 m) as Hleast.
           { split; [exact Hin|]. split; [lia|]. intros y Hy Hy1.
             destruct (Z_lt_le_dec y m) as [Hlt|]; [|lia].
             apply list_elem_of_lookup in Hy as [k Hk].
             pose proof (Hlow k y Hk Hy1 Hlt) as ->. congruence. }
           split_and!; try assumption; try lia.
           ++ intros k x Hk Hx _ _. apply Hleast; [|lia].
              apply list_elem_of_lookup. eauto.
           ++ left. split; [reflexivity|]. split; [lia|].
              intros k [Hk1 Hk2].
              replace k with (i + 1 + (k - (i + 1)))%nat by lia.
              rewrite <- lookup_drop. apply Hj2. lia.
        -- apply contains_not_elem_of in Hlater. unfold Py.slice_from in Hlater.
           eexists. split; [reflexivity|]. simpl. split; [|auto].
           split; [lia|]. exists i, m.
           split; [reflexivity|]. split; [exact Hfirst|]. split; [lia|]. split; [lia|].
           intros k x Hk Hx1 Hx2.
           destruct (Z_lt_le_dec x m) as [Hlt|Hge]; [eauto|].
           assert (x = m) as -> by lia.
           destruct (Nat.lt_trichotomy k i) as [Hki|[Hki|Hki]]; [|exact Hki|].
           ++ destruct Hfirst as [_ Hfl]. destruct (Hfl k Hki Hk).
           ++ exfalso. apply Hlater. apply list_elem_of_lookup.
              exists (k - (i + 1))%nat. rewrite lookup_drop.
              replace (i + 1 + (k - (i + 1)))%nat with k by lia. exact Hk.
      * rewrite bool_decide_false by exact Hne. simpl.
        eexists. split; [reflexivity|]. simpl. split; [|auto].
        split; [lia|]. exists i, i0.
        split; [reflexivity|]. split; [reflexivity|].
        assert (i ≠ i0) as Hii by congruence.
        assert (d1 < m) as Hlt.
        { destruct (Z_lt_le_dec d1 m) as [|Hge]; [assumption|].
          assert (d1 = m) as -> by lia.
          destruct Hii. eapply first_index_unique; eassumption. }
        assert (least_from l 1 d1) as Hleast.
        { destruct Hfirst as [Hfi _].
          split; [apply list_elem_of_lookup; eauto|]. split; [lia|].
          intros y Hy Hy1.
          destruct (Z_lt_le_dec y d1) as [Hlt'|]; [|lia].
          apply list_elem_of_lookup in Hy as [k Hk].
          assert (k = i) as -> by (apply (Hlow k y Hk Hy1); lia). congruence. }
        exists d1, m.
        split_and!; try assumption; try lia.
        -- apply Hfirst.
        -- apply Hi0.
        -- intros k x Hk Hx Hki _.
           destruct (Z_lt_le_dec x m) as [Hxm|]; [|lia].
           destruct Hki. eauto.
        -- right. split; [lia|]. split; [assumption|].
           intros k Hk. apply (Hlow k d1 Hk); lia.
    + destruct Hinv as [-> Hlow].
      eexists. split; [reflexivity|]. simpl. split; [|auto].
      split; [lia|]. exists i0, m.
      split; [reflexivity|]. split; [exact Hi0|]. split; [lia|]. split; [lia|].
      intros k x Hk Hx1 Hx2. exfalso.
      assert (m ≤ x); [|lia]. apply Hlow; [|lia].
      apply list_elem_of_lookup. eauto.
  - apply contains_not_elem_of in Hin.
    eexists. split; [reflexivity|]. simpl. split; [|auto].
    split; [lia|]. destruct f1.
    + destruct Hinv as (i & d1 & -> & Hfirst & Hd1 & Hd1m & Hlow).
      exists i, d1. split; [reflexivity|]. split; [exact Hfirst|].
      split; [lia|]. split; [lia|].
      intros k x Hk Hx1 Hx2.
      destruct (Z_lt_le_dec x m) as [Hlt|Hge]; [eauto|].
      assert (x = m) as -> by lia.
      destruct Hin. apply list_elem_of_lookup. eauto.
    + destruct Hinv as [-> Hlow]. split; [reflexivity|].
      intros x Hx Hx1. pose proof (Hlow x Hx Hx1).
      assert (x ≠ m) by congruence. lia.
Qed.

Lemma sd_loop_found l s fuel :
  found2 s = true → sd_loop fuel l s = Some (Ok (id1 s, id2 s)).
Proof. intros H. destruct fuel; simpl; rewrite H; reflexivity. Qed.

Lemma sd_loop_next l s s' fuel :
  found2 s = false → sd_body l s = Ok s' →
  sd_loop (S fuel) l s = sd_loop fuel l s'.
Proof. intros H1 H2. simpl. rewrite H1, H2. reflexivity. Qed.

(** More fuel does not change a result. *)
Lemma sd_loop_mono l fuel : ∀ s r fuel',
  sd_loop fuel l s = Some r → (fuel ≤ fuel')%nat → sd_loop fuel' l s = Some r.
Proof.
  induction fuel as [|fuel IH]; intros s r fuel' Hr Hle.
  - simpl in Hr. destruct (found2 s) eqn:Hf; [|discriminate].
    rewrite sd_loop_found by exact Hf. exact Hr.
  - destruct fuel' as [|fuel']; [lia|].
    simpl in *. destruct (found2 s); [exact Hr|].
    destruct (sd_body l s); [|exact Hr].
    apply IH; [exact Hr | lia].
Qed.

(** Partial correctness: whatever the loop returns satisfies [sd_post]. *)
Lemma sd_loop_sound l fuel : ∀ s r,
  sd_inv l s → sd_loop fuel l s = Some r →
  ∃ i j, r = Ok (Some i, Some j) ∧ sd_post l i j.
Proof.
  induction fuel as [|fuel IH]; intros s r Hinv Hr.
  - simpl in Hr. destruct (found2 s) eqn:Hf; [|discriminate].
    destruct Hinv as [_ Hinv]. rewrite Hf in Hinv.
    destruct Hinv as (i & j & Hi & Hj & Hpost).
    exists i, j. split; [congruence | exact Hpost].
  - destruct (found2 s) eqn:Hf.
    + rewrite sd_loop_found in Hr by exact Hf.
      destruct Hinv as [_ Hinv]. rewrite Hf in Hinv.
      destruct Hinv as (i & j & Hi & Hj & Hpost).
      exists i, j. split; [congruence | exact Hpost].
    + destruct (sd_body_inv l s Hinv Hf) as (s' & Hbody & Hinv' & _).
      rewrite (sd_loop_next l s s') in Hr by assumption.
      eapply IH; eassumption.
Qed.

Lemma sd_post_two_positive l i j : sd_post l i j → two_positive l.
Proof.
  intros (d1 & d2 & Hi & Hj & Hd1 & Hd12 & Hij & _).
  exists i, j, d1, d2. split_and!; try assumption. lia.
Qed.

(** While the loop runs, the threshold stays below any bound of two
    positive distances. *)
Lemma sd_inv_bounded l s p q x y :
  sd_inv l s → found2 s = false →
  p ≠ q → l !! p = Some x → l !! q = Some y → 1 ≤ x → 1 ≤ y →
  min_distance s ≤ Z.max x y.
Proof.
  intros [Hm Hinv] Hf Hpq Hp Hq Hx Hy. rewrite Hf in Hinv.
  destruct (found1 s).
  - destruct Hinv as (i & d1 & _ & _ & _ & _ & Hlow).
    destruct (Z_le_gt_dec (min_distance s) (Z.max x y)) as [|Hgt]; [assumption|].
    destruct Hpq. rewrite (Hlow p x), (Hlow q y); auto; lia.
  - destruct Hinv as [_ Hlow].
    assert (min_distance s ≤ x); [|lia].
    apply Hlow; [|exact Hx]. apply list_elem_of_lookup. eauto.
Qed.

(** Total correctness: with two positive distances in the row the loop
    exits within [sd_measure] iterations. *)
Lemma sd_loop_terminates l p q x y :
  p ≠ q → l !! p = Some x → l !! q = Some y → 1 ≤ x → 1 ≤ y →
  ∀ fuel s, sd_inv l s → (sd_measure (Z.max x y) s ≤ fuel)%nat →
  is_Some (sd_loop fuel l s).
Proof.
  intros Hpq Hp Hq Hx Hy. induction fuel as [|fuel IH]; intros s Hinv Hmeas.
  - destruct (found2 s) eqn:Hf; [rewrite sd_loop_found by exact Hf; eauto|].
    pose proof (sd_inv_bounded l s p q x y Hinv Hf Hpq Hp Hq Hx Hy).
    unfold sd_measure in Hmeas. lia.
  - destruct (found2 s) eqn:Hf; [rewrite sd_loop_found by exact Hf; eauto|].
    pose proof (sd_inv_bounded l s p q x y Hinv Hf Hpq Hp Hq Hx Hy) as Hb.
    destruct (sd_body_inv l s Hinv Hf) as (s' & Hbody & Hinv' & Hprog).
    rewrite (sd_loop_next l s s') by assumption.
    destruct Hprog as [Hf'|[(H1 & H1' & Hm')|(H1 & Hm')]].
    + rewrite sd_loop_found by exact Hf'. eauto.
    + apply IH; [exact Hinv'|]. unfold sd_measure in *.
      rewrite H1 in Hmeas. rewrite H1', Hm'. lia.
    + apply IH; [exact Hinv'|]. unfold sd_measure in *.
      rewrite H1, Hm'. lia.
Qed.

(** The loop exits exactly on the rows with two positive distances. *)
Lemma sd_loop_diverges l :
  ¬ two_positive l → ∀ fuel, sd_loop fuel l sd_init = None.
Proof.
  intros Hno fuel. destruct (sd_loop fuel l sd_init) as [r|] eqn:Hr; [|reflexivity].
  destruct (sd_loop_sound l fuel _ _ (sd_inv_init l) Hr) as (i & j & _ & Hpost).
  destruct Hno. eapply sd_post_two_positive; eassumption.
Qed.

Lemma select_distractors_row distances t row fuel :
  distances !! t = Some row →
  select_distractors fuel t distances = sd_loop fuel row sd_init.
Proof. intros H. unfold select_distractors, Py.getitem. rewrite H. reflexivity. Qed.

Lemma select_distractors_returns distances t row :
  distances !! t = Some row → two_positive row →
  ∃ fuel i j,
    select_distractors fuel t distances = Some (Ok (Some i, Some j)) ∧
    sd_post row i j.
Proof.
  intros Hrow (p & q & x & y & Hpq & Hp & Hq & Hx & Hy).
  set (fuel := sd_measure (Z.max x y) sd_init).
  destruct (sd_loop_terminates row p q x y Hpq Hp Hq Hx Hy fuel sd_init
              (sd_inv_init row) (Nat.le_refl _)) as [r Hr].
  destruct (sd_loop_sound row fuel _ _ (sd_inv_init row) Hr) as (i & j & -> & Hpost).
  exists fuel, i, j. rewrite (select_distractors_row _ _ row) by exact Hrow. auto.
Qed.

Lemma select_distractors_sound distances t row fuel r :
  distances !! t = Some row →
  select_distractors fuel t distances = Some r →
  ∃ i j, r = Ok (Some i, Some j) ∧ sd_post row i j.
Proof.
  intros Hrow Hr. rewrite (select_distractors_row _ _ row) in Hr by exact Hrow.
  eapply sd_loop_sound; [apply sd_inv_init | exact Hr].
Qed.

(** Two runs with different fuel agree when both return. *)
Lemma select_distractors_deterministic distances t fuel fuel' r r' :
  select_distractors fuel t distances = Some r →
  select_distractors fuel' t distances = Some r' → r = r'.
Proof.
  unfold select_distractors. destruct (Py.getitem distances t); [|congruence].
  intros H H'.
  apply (sd_loop_mono _ _ _ _ (Nat.max fuel fuel')) in H; [|lia].
  apply (sd_loop_mono _ _ _ _ (Nat.max fuel fuel')) in H'; [|lia].
  congruence.
Qed.

(** ** The edit distance *)

Lemma distance_empty_l t : Levenshtein.distance EmptyString t = String.length t.
Proof. destruct t; reflexivity. Qed.

Lemma distance_empty_r s : Levenshtein.distance s EmptyString = String.length s.
Proof. destruct s; reflexivity. Qed.

Lemma distance_cons a s b t :
  Levenshtein.distance (String a s) (String b t)
  = Nat.min (Nat.min (S (Levenshtein.distance s (String b t)))
                     (S (Levenshtein.distance (String a s) t)))
            (Levenshtein.distance s t + (if Ascii.eqb a b then 0 else 1))%nat.
Proof. reflexivity. Qed.

Lemma distance_symmetric s : ∀ t,
  Levenshtein.distance s t = Levenshtein.distance t s.
Proof.
  induction s as [|a s IHs]; intros t.
  - rewrite distance_empty_l, distance_empty_r. reflexivity.
  - induction t as [|b t IHt].
    + rewrite distance_empty_l, distance_empty_r. reflexivity.
    + rewrite !distance_cons, IHt, (IHs t), (IHs (String b t)).
      rewrite (Ascii.eqb_sym b a). lia.
Qed.

Lemma distance_same s : Levenshtein.distance s s = 0%nat.
Proof.
  induction s as [|a s IH]; [reflexivity|].
  rewrite distance_cons, IH, Ascii.eqb_refl. lia.
Qed.

(** Neighbouring arguments differ by at most one edit. *)
Lemma distance_delete a s t :
  (Levenshtein.distance (String a s) t ≤ S (Levenshtein.distance s t))%nat.
Proof.
  destruct t as [|b t].
  - rewrite !distance_empty_r. simpl. lia.
  - rewrite distance_cons. lia.
Qed.

Lemma distance_insert b s t :
  (Levenshtein.distance s (String b t) ≤ S (Levenshtein.distance s t))%nat.
Proof.
  rewrite (distance_symmetric s (String b t)), (distance_symmetric s t).
  apply distance_delete.
Qed.

(** The recurrence is reached by an edit script ... *)
Lemma distance_edit_script s : ∀ t,
  edit_script s t (Levenshtein.distance s t).
Proof.
  induction s as [|a s IHs]; intros t.
  - rewrite distance_empty_l. induction t as [|b t IHt]; simpl.
    + constructor.
    + apply edit_insert, IHt.
  - induction t as [|b t IHt].
    + rewrite distance_empty_r. simpl. apply edit_delete.
      specialize (IHs EmptyString). rewrite distance_empty_r in IHs. exact IHs.
    + rewrite distance_cons.
      set (d1 := S (Levenshtein.distance s (String b t))).
      set (d2 := S (Levenshtein.distance (String a s) t)).
      set (d3 := (Levenshtein.distance s t + (if Ascii.eqb a b then 0 else 1))%nat).
      assert (edit_script (String a s) (String b t) d1) as H1
        by (apply edit_delete, IHs).
      assert (edit_script (String a s) (String b t) d2) as H2
        by (apply edit_insert, IHt).
      assert (edit_script (String a s) (String b t) d3) as H3.
      { subst d3. destruct (Ascii.eqb_spec a b) as [->|_].
        - rewrite Nat.add_0_r. apply edit_keep, IHs.
        - rewrite Nat.add_1_r. apply edit_substitute, IHs. }
      destruct (Nat.min_spec (Nat.min d1 d2) d3) as [[_ ->]|[_ ->]]; [|exact H3].
      destruct (Nat.min_spec d1 d2) as [[_ ->]|[_ ->]]; assumption.
Qed.

(** ... and no edit script is shorter. *)
Lemma distance_minimal s t n :
  edit_script s t n → (Levenshtein.distance s t ≤ n)%nat.
Proof.
  induction 1 as [|c s t n _ IH|a b s t n _ IH|a s t n _ IH|b s t n _ IH].
  - simpl. lia.
  - rewrite distance_cons, Ascii.eqb_refl. lia.
  - rewrite distance_cons. destruct (Ascii.eqb a b); lia.
  - pose proof (distance_delete a s t). lia.
  - pose proof (distance_insert b s t). lia.
Qed.

(** Distance zero means equal strings. *)
Lemma distance_zero s : ∀ t, Levenshtein.distance s t = 0%nat → s = t.
Proof.
  induction s as [|a s IHs]; intros t.
  - rewrite distance_empty_l. destruct t; [reflexivity | discriminate].
  - destruct t as [|b t]; [rewrite distance_empty_r; discriminate|].
    rewrite distance_cons. intros H.
    destruct (Ascii.eqb_spec a b) as [->|_]; [|lia].
    f_equal. apply IHs. lia.
Qed.

(** ** The distance matrix *)

Lemma foldl_snoc {A B : Type} (f : A → B) (l : list A) : ∀ acc,
  foldl (λ acc a, acc ++ [f a]) acc l = acc ++ (f <$> l).
Proof.
  induction l as [|a l IH]; intros acc; simpl.
  - rewrite app_nil_r. reflexivity.
  - rewrite IH, <- app_assoc. reflexivity.
Qed.

Lemma get_distances_row_cells grids i :
  get_distances_row grids i = cell grids i <$> seq 0 (length grids).
Proof.
  unfold get_distances_row. generalize (seq 0 (length grids)) as l.
  assert (∀ l acc,
    foldl (λ i_distances j,
             if bool_decide (i = j) then i_distances ++ [0]
             else i_distances ++
                    [Z.of_nat (Levenshtein.distance (grids !!! i) (grids !!! j))])
          acc l = acc ++ (cell grids i <$> l)) as Hgen.
  { induction l as [|j l IH]; intros acc; simpl.
    - rewrite app_nil_r. reflexivity.
    - rewrite IH. unfold cell at 2.
      destruct (bool_decide (i = j)); rewrite <- app_assoc; reflexivity. }
  intros l. apply Hgen.
Qed.

Lemma get_distances_rows grids :
  get_distances grids = get_distances_row grids <$> seq 0 (length grids).
Proof. unfold get_distances. rewrite foldl_snoc. reflexivity. Qed.

Lemma get_distances_length grids : length (get_distances grids) = length grids.
Proof. rewrite get_distances_rows, length_fmap, length_seq. reflexivity. Qed.

Lemma get_distances_lookup grids i :
  (i < length grids)%nat →
  get_distances grids !! i = Some (cell grids i <$> seq 0 (length grids)).
Proof.
  intros Hi. rewrite get_distances_rows, list_lookup_fmap, lookup_seq_lt by exact Hi.
  simpl. rewrite get_distances_row_cells. reflexivity.
Qed.

Lemma get_distances_entry grids i j :
  (i < length grids)%nat → (j < length grids)%nat →
  entry (get_distances grids) i j = Some (cell grids i j).
Proof.
  intros Hi Hj. unfold entry. rewrite get_distances_lookup by exact Hi. simpl.
  rewrite list_lookup_fmap, lookup_seq_lt by exact Hj. reflexivity.
Qed.

Lemma get_distances_entry_None grids i j :
  (length grids ≤ i)%nat ∨ (length grids ≤ j)%nat →
  entry (get_distances grids) i j = None.
Proof.
  intros H. unfold entry.
  destruct (decide (i < length grids)%nat) as [Hi|Hi].
  - rewrite get_distances_lookup by exact Hi. simpl.
    apply lookup_ge_None. rewrite length_fmap, length_seq. lia.
  - rewrite (proj2 (lookup_ge_None _ _)); [reflexivity|].
    rewrite get_distances_length. lia.
Qed.

Lemma cell_symmetric grids i j : cell grids i j = cell grids j i.
Proof.
  unfold cell. destruct (decide (i = j)) as [->|Hne]; [reflexivity|].
  rewrite !bool_decide_false by congruence.
  rewrite distance_symmetric. reflexivity.
Qed.

Lemma get_distances_is_distance_matrix grids :
  is_distance_matrix (get_distances grids).
Proof.
  split.
  - intros i row Hrow. pose proof (lookup_lt_Some _ _ _ Hrow) as Hi.
    rewrite get_distances_length in Hi |- *.
    rewrite get_distances_lookup in Hrow by exact Hi. injection Hrow as <-.
    rewrite length_fmap, length_seq. reflexivity.
  - intros i j x Hx.
    destruct (decide (i < length grids)%nat) as [Hi|Hi];
      [destruct (decide (j < length grids)%nat) as [Hj|Hj]|].
    + rewrite get_distances_entry in Hx by assumption. injection Hx as <-.
      unfold cell. destruct (bool_decide (i = j)); lia.
    + rewrite get_distances_entry_None in Hx by lia. discriminate.
    + rewrite get_distances_entry_None in Hx by lia. discriminate.
  - intros i Hi. rewrite get_distances_length in Hi.
    rewrite get_distances_entry by exact Hi. unfold cell.
    rewrite bool_decide_true by reflexivity. reflexivity.
  - intros i j.
    destruct (decide (i < length grids)%nat) as [Hi|Hi];
      [destruct (decide (j < length grids)%nat) as [Hj|Hj]|].
    + rewrite !get_distances_entry by assumption. f_equal. apply cell_symmetric.
    + rewrite !get_distances_entry_None by lia. reflexivity.
    + rewrite !get_distances_entry_None by lia. reflexivity.
Qed.

(** ** [select_distractors]: the claims *)

Lemma entry_row distances t row k :
  distances !! t = Some row → entry distances t k = row !! k.
Proof. intros H. unfold entry. rewrite H. reflexivity. Qed.

Lemma select_distractors_Ok_row distances t fuel r :
  select_distractors fuel t distances = Some (Ok r) →
  ∃ row, distances !! t = Some row.
Proof.
  unfold select_distractors, Py.getitem.
  destruct (distances !! t) as [row|]; [eauto | discriminate].
Qed.

Example get_distances_repeated :
  get_distances grids_repeated
  = [[0; 0; 1; 2]; [0; 0; 1; 2]; [1; 1; 0; 1]; [2; 2; 1; 0]].
Proof. vm_compute. reflexivity. Qed.

Example select_distractors_repeated :
  select_distractors 3 0 (get_distances grids_repeated)
  = Some (Ok (Some 2%nat, Some 3%nat)).
Proof. vm_compute. reflexivity. Qed.

(** C1, as stated, fails: in a group of four grids whose first two grids
    are equal, the search for target 0 returns (2, 3) although index 1,
    outside {0, 2, 3}, is at distance 0 < 2. *)
Lemma select_distractors_minimality_counterexample :
  (3 ≤ length grids_repeated)%nat ∧
  ¬ nearest_among_all (get_distances grids_repeated) 0.
Proof.
  split; [simpl; lia|].
  intros (fuel & i & j & d1 & d2 & row & _ & Hsel & Hi & Hj & _ & _ & _ & Hmin).
  pose proof (select_distractors_deterministic _ _ _ _ _ _
                Hsel select_distractors_repeated) as Heq.
  injection Heq as -> ->.
  rewrite get_distances_repeated in Hj, Hmin.
  injection Hj as <-.
  apply (Hmin 1%nat 0); [lia | lia | lia | reflexivity | lia].
Qed.

(** A group of three equal grids: the search never returns. *)
Lemma select_distractors_identical_diverges fuel t :
  (t < length grids_identical)%nat →
  select_distractors fuel t (get_distances grids_identical) = None.
Proof.
  intros Ht.
  assert (get_distances grids_identical = [[0; 0; 0]; [0; 0; 0]; [0; 0; 0]]) as ->
    by (vm_compute; reflexivity).
  rewrite (select_distractors_row _ _ [0; 0; 0]).
  - apply sd_loop_diverges.
    intros (p & q & x & y & _ & Hp & _ & Hx & _).
    destruct p as [|[|[|p]]]; simpl in Hp; try discriminate;
      injection Hp as <-; lia.
  - simpl in Ht. destruct t as [|[|[|t]]]; try reflexivity. lia.
Qed.

(** C1, amended: when row [t] holds two positive distances, the search
    returns a pair (id1, id2) with matrix[t][id1] ≤ matrix[t][id2], id1
    the lowest index of the smallest distance ≥ 1 of the row, and no index
    other than id1 and id2 whose distance is at least 1 lies strictly
    below matrix[t][id2]; every run that returns gives this pair. *)
Theorem select_distractors_minimality distances t row :
  distances !! t = Some row → two_positive row →
  ∃ (fuel i j : nat) (d1 d2 : Z),
    select_distractors fuel t distances = Some (Ok (Some i, Some j)) ∧
    (∀ fuel' r, select_distractors fuel' t distances = Some r →
                r = Ok (Some i, Some j)) ∧
    entry distances t i = Some d1 ∧ entry distances t j = Some d2 ∧
    d1 ≤ d2 ∧
    least_from row 1 d1 ∧ first_index row d1 i ∧
    (∀ k x, k ≠ i → k ≠ j → entry distances t k = Some x → 1 ≤ x → ¬ x < d2).
Proof.
  intros Hrow Htwo.
  destruct (select_distractors_returns distances t row Hrow Htwo)
    as (fuel & i & j & Hsel & Hpost).
  destruct Hpost as (d1 & d2 & Hi & Hj & Hd1 & Hd12 & Hij & Hfirst & Hleast & Hsecond & _).
  exists fuel, i, j, d1, d2.
  rewrite !(entry_row _ _ row) by exact Hrow.
  split_and!; try assumption.
  - intros fuel' r Hr. eapply select_distractors_deterministic; eassumption.
  - intros k x Hki Hkj Hk Hx Hlt. rewrite (entry_row _ _ row) in Hk by exact Hrow.
    pose proof (Hsecond k x Hk Hx Hki Hkj). lia.
Qed.

Lemma two_positive_example : two_positive [0; 1; 2].
Proof. exists 1%nat, 2%nat, 1, 2. split_and!; (reflexivity || lia). Qed.

Lemma select_distractors_minimality_witness :
  ∃ (fuel i j : nat) (d1 d2 : Z),
    select_distractors fuel 0 [[0; 1; 2]; [1; 0; 1]; [2; 1; 0]]
      = Some (Ok (Some i, Some j)) ∧
    (∀ fuel' r, select_distractors fuel' 0 [[0; 1; 2]; [1; 0; 1]; [2; 1; 0]] = Some r →
                r = Ok (Some i, Some j)) ∧
    entry [[0; 1; 2]; [1; 0; 1]; [2; 1; 0]] 0 i = Some d1 ∧
    entry [[0; 1; 2]; [1; 0; 1]; [2; 1; 0]] 0 j = Some d2 ∧
    d1 ≤ d2 ∧
    least_from [0; 1; 2] 1 d1 ∧ first_index [0; 1; 2] d1 i ∧
    (∀ k x, k ≠ i → k ≠ j →
            entry [[0; 1; 2]; [1; 0; 1]; [2; 1; 0]] 0 k = Some x → 1 ≤ x → ¬ x < d2).
Proof.
  apply (select_distractors_minimality [[0; 1; 2]; [1; 0; 1]; [2; 1; 0]] 0 [0; 1; 2]).
  - reflexivity.
  - exact two_positive_example.
Defined.

(** C3: on a distance matrix, a returned pair (id1, id2) has id1 ≠ t,
    id2 ≠ t and id1 ≠ id2. *)
Theorem select_distractors_distinct distances t fuel r :
  is_distance_matrix distances →
  select_distractors fuel t distances = Some (Ok r) →
  ∃ i j : nat, r = (Some i, Some j) ∧ i ≠ t ∧ j ≠ t ∧ i ≠ j.
Proof.
  intros Hdm Hsel.
  destruct (select_distractors_Ok_row _ _ _ _ Hsel) as [row Hrow].
  destruct (select_distractors_sound _ _ row _ _ Hrow Hsel) as (i & j & Heq & Hpost).
  injection Heq as ->.
  assert (row !! t = Some 0) as Hdiag.
  { rewrite <- (entry_row distances t row) by exact Hrow.
    apply (dm_diagonal _ Hdm). eapply lookup_lt_Some, Hrow. }
  destruct Hpost as (d1 & d2 & Hi & Hj & Hd1 & Hd12 & Hij & _).
  exists i, j. split_and!; [reflexivity | | | exact Hij].
  - intros ->. rewrite Hdiag in Hi. injection Hi as <-. lia.
  - intros ->. rewrite Hdiag in Hj. injection Hj as <-. lia.
Qed.

Lemma select_distractors_distinct_witness :
  ∃ i j : nat, (Some 1%nat, Some 2%nat) = (Some i, Some j) ∧
               i ≠ 0%nat ∧ j ≠ 0%nat ∧ i ≠ j.
Proof.
  apply (select_distractors_distinct (get_distances grids_example) 0 3).
  - apply get_distances_is_distance_matrix.
  - vm_compute. reflexivity.
Defined.

(** C10: both returned indices are at distance ≥ 1 from the target, so
    an index at distance 0 is never returned. *)
Theorem select_distractors_positive distances t fuel r :
  select_distractors fuel t distances = Some (Ok r) →
  ∃ (i j : nat) (x y : Z),
    r = (Some i, Some j) ∧
    entry distances t i = Some x ∧ entry distances t j = Some y ∧
    1 ≤ x ∧ 1 ≤ y ∧
    (∀ k, entry distances t k = Some 0 → k ≠ i ∧ k ≠ j).
Proof.
  intros Hsel.
  destruct (select_distractors_Ok_row _ _ _ _ Hsel) as [row Hrow].
  destruct (select_distractors_sound _ _ row _ _ Hrow Hsel) as (i & j & Heq & Hpost).
  injection Heq as ->.
  destruct Hpost as (d1 & d2 & Hi & Hj & Hd1 & Hd12 & _).
  exists i, j, d1, d2. rewrite !(entry_row _ _ row) by exact Hrow.
  split_and!; try assumption; [reflexivity | lia |].
  intros k Hk. rewrite (entry_row _ _ row) in Hk by exact Hrow.
  split; intros ->; [rewrite Hk in Hi; injection Hi as <- | rewrite Hk in Hj; injection Hj as <-]; lia.
Qed.

Lemma select_distractors_positive_witness :
  ∃ (i j : nat) (x y : Z),
    (Some 2%nat, Some 3%nat) = (Some i, Some j) ∧
    entry (get_distances grids_repeated) 0 i = Some x ∧
    entry (get_distances grids_repeated) 0 j = Some y ∧
    1 ≤ x ∧ 1 ≤ y ∧
    (∀ k, entry (get_distances grids_repeated) 0 k = Some 0 → k ≠ i ∧ k ≠ j).
Proof.
  apply (select_distractors_positive (get_distances grids_repeated) 0 3).
  vm_compute. reflexivity.
Defined.

Lemma short_distance_matrix_row distances t row :
  is_distance_matrix distances → (length distances < 3)%nat →
  distances !! t = Some row → ¬ two_positive row.
Proof.
  intros Hdm Hlen Hrow (p & q & x & y & Hpq & Hp & Hq & Hx & Hy).
  pose proof (dm_square _ Hdm t row Hrow) as Hsq.
  pose proof (lookup_lt_Some _ _ _ Hrow) as Ht.
  pose proof (lookup_lt_Some _ _ _ Hp) as Hp'.
  pose proof (lookup_lt_Some _ _ _ Hq) as Hq'.
  pose proof (dm_diagonal _ Hdm t Ht) as Hdiag.
  rewrite (entry_row _ _ row) in Hdiag by exact Hrow.
  assert (t = p ∨ t = q) as [->| ->] by lia.
  - rewrite Hdiag in Hp. injection Hp as <-. lia.
  - rewrite Hdiag in Hq. injection Hq as <-. lia.
Qed.

(** In a group of at least three pairwise different grids every row has
    two positive distances. *)
Lemma distinct_grids_two_positive grids t row :
  NoDup grids → (3 ≤ length grids)%nat →
  get_distances grids !! t = Some row → two_positive row.
Proof.
  intros Hnodup Hlen Hrow.
  pose proof (lookup_lt_Some _ _ _ Hrow) as Ht. rewrite get_distances_length in Ht.
  rewrite get_distances_lookup in Hrow by exact Ht. injection Hrow as <-.
  assert (∀ p, (p < length grids)%nat → p ≠ t →
               ∃ x, (cell grids t <$> seq 0 (length grids)) !! p = Some x ∧ 1 ≤ x)
    as Hpos.
  { intros p Hp Hpt. exists (cell grids t p). split.
    - rewrite list_lookup_fmap, lookup_seq_lt by exact Hp. reflexivity.
    - unfold cell. rewrite bool_decide_false by congruence.
      destruct (Levenshtein.distance (grids !!! t) (grids !!! p)) eqn:Hd; [|lia].
      apply distance_zero in Hd. destruct Hpt.
      apply (NoDup_lookup grids p t (grids !!! p) Hnodup).
      + apply list_lookup_lookup_total_lt, Hp.
      + rewrite <- Hd. apply list_lookup_lookup_total_lt, Ht. }
  assert (∃ p q, p ≠ q ∧ p ≠ t ∧ q ≠ t ∧ (p < length grids)%nat ∧ (q < length grids)%nat)
    as (p & q & Hpq & Hpt & Hqt & Hp & Hq).
  { destruct t as [|[|t]].
    - exists 1%nat, 2%nat. lia.
    - exists 0%nat, 2%nat. lia.
    - exists 0%nat, 1%nat. lia. }
  destruct (Hpos p Hp Hpt) as (x & Hx & Hx1).
  destruct (Hpos q Hq Hqt) as (y & Hy & Hy1).
  exists p, q, x, y. auto.
Qed.

(** In a group of pairwise different grids the search for any target
    returns, and the result is minimal among all the other indices. *)
Corollary select_distractors_distinct_grids grids t :
  NoDup grids → (3 ≤ length grids)%nat → (t < length grids)%nat →
  ∃ (fuel i j : nat) (d1 d2 : Z),
    select_distractors fuel t (get_distances grids) = Some (Ok (Some i, Some j)) ∧
    entry (get_distances grids) t i = Some d1 ∧
    entry (get_distances grids) t j = Some d2 ∧ d1 ≤ d2 ∧
    (∀ k x, k ≠ t → k ≠ i → k ≠ j →
            entry (get_distances grids) t k = Some x → ¬ x < d2).
Proof.
  intros Hnodup Hlen Ht.
  pose proof (get_distances_lookup grids t Ht) as Hrow.
  pose proof (distinct_grids_two_positive grids t _ Hnodup Hlen Hrow) as Htwo.
  destruct (select_distractors_returns _ t _ Hrow Htwo) as (fuel & i & j & Hsel & Hpost).
  destruct Hpost as (d1 & d2 & Hi & Hj & Hd1 & Hd12 & Hij & _ & _ & Hsecond & _).
  exists fuel, i, j, d1, d2. rewrite !(entry_row _ _ _ _ Hrow).
  split_and!; try assumption.
  intros k x Hkt Hki Hkj Hk Hlt.
  rewrite (entry_row _ _ _ _ Hrow) in Hk.
  assert (1 ≤ x) as Hx.
  { pose proof (lookup_lt_Some _ _ _ Hk) as Hklen.
    rewrite length_fmap, length_seq in Hklen.
    rewrite list_lookup_fmap, lookup_seq_lt in Hk by exact Hklen.
    injection Hk as <-. unfold cell. rewrite bool_decide_false by congruence.
    destruct (Levenshtein.distance (grids !!! t) (grids !!! k)) eqn:Hd; [|lia].
    apply distance_zero in Hd. destruct Hkt.
    apply (NoDup_lookup grids k t (grids !!! k) Hnodup).
    - apply list_lookup_lookup_total_lt, Hklen.
    - rewrite <- Hd. apply list_lookup_lookup_total_lt, Ht. }
  pose proof (Hsecond k x Hk Hx Hki Hkj). lia.
Qed.

(** C4: on a row with two indices at distance ≥ 1, as every row of a
    group of at least three different grids is, the search returns; on a
    row without them, and so on every row of a distance matrix of fewer
    than 3 grids, it runs forever. *)
Theorem select_distractors_termination distances t row :
  distances !! t = Some row →
  (two_positive row →
   ∃ fuel i j, select_distractors fuel t distances = Some (Ok (Some i, Some j))) ∧
  (∀ grids, distances = get_distances grids → NoDup grids → (3 ≤ length grids)%nat →
            two_positive row) ∧
  (¬ two_positive row → ∀ fuel, select_distractors fuel t distances = None) ∧
  (is_distance_matrix distances → (length distances < 3)%nat →
   ∀ fuel, select_distractors fuel t distances = None).
Proof.
  intros Hrow. split_and!.
  - intros Htwo.
    destruct (select_distractors_returns distances t row Hrow Htwo)
      as (fuel & i & j & Hsel & _).
    eauto.
  - intros grids -> Hnodup Hlen. eapply distinct_grids_two_positive; eassumption.
  - intros Hno fuel. rewrite (select_distractors_row _ _ row) by exact Hrow.
    apply sd_loop_diverges, Hno.
  - intros Hdm Hlen fuel. rewrite (select_distractors_row _ _ row) by exact Hrow.
    apply sd_loop_diverges. eapply short_distance_matrix_row; eassumption.
Qed.

Lemma select_distractors_termination_witness :
  (∃ fuel i j, select_distractors fuel 0 (get_distances grids_example)
               = Some (Ok (Some i, Some j))) ∧
  (∀ fuel, select_distractors fuel 0 (get_distances ["00"; "01"]%string) = None).
Proof.
  split.
  - apply (select_distractors_termination (get_distances grids_example) 0 [0; 1; 2]).
    + vm_compute. reflexivity.
    + exact two_positive_example.
  - apply (select_distractors_termination (get_distances ["00"; "01"]%string) 0 [0; 1]).
    + vm_compute. reflexivity.
    + apply get_distances_is_distance_matrix.
    + rewrite get_distances_length. simpl. lia.
Defined.

(** C7: for the grids "00", "01", "11" the row of target 0 is [0, 1, 2];
    the first iteration sets id1 = 1 at distance 1, the second finds no
    other index at distance 1 and raises the threshold to 2, the third sets
    id2 = 2; the search returns (1, 2). *)
Theorem select_distractors_example :
  get_distances grids_example = [[0; 1; 2]; [1; 0; 1]; [2; 1; 0]] ∧
  get_distances grids_example !! 0%nat = Some [0; 1; 2] ∧
  sd_body [0; 1; 2] sd_init = Ok example_state1 ∧
  sd_body [0; 1; 2] example_state1 = Ok example_state2 ∧
  sd_body [0; 1; 2] example_state2 = Ok example_state3 ∧
  ∀ fuel, (3 ≤ fuel)%nat →
    select_distractors fuel 0 (get_distances grids_example)
    = Some (Ok (Some 1%nat, Some 2%nat)).
Proof.
  split_and!; try (vm_compute; reflexivity).
  intros fuel Hfuel.
  unfold select_distractors.
  eapply sd_loop_mono; [|exact Hfuel]. vm_compute. reflexivity.
Qed.

Lemma select_distractors_example_witness :
  select_distractors 3 0 (get_distances grids_example)
  = Some (Ok (Some 1%nat, Some 2%nat)).
Proof.
  destruct select_distractors_example as (_ & _ & _ & _ & _ & Hfuel).
  apply Hfuel. lia.
Defined.

Example generate_samples_example :
  generate_samples 3 grids_example
  = Some (Ok [("00", "01", "11"); ("01", "00", "11"); ("11", "01", "00")]%string).
Proof. vm_compute. reflexivity. Qed.

(** C6: the matrix of [get_distances] has a zero diagonal, and its entries
    (i, j) and (j, i) both hold the edit distance of grid i and grid j,
    which is the least number of single-character insertions, deletions
    and substitutions that turn one into the other. *)
Theorem get_distances_contract grids i j gi gj :
  grids !! i = Some gi → grids !! j = Some gj →
  entry (get_distances grids) i i = Some 0 ∧
  (i ≠ j →
   entry (get_distances grids) i j = Some (Z.of_nat (Levenshtein.distance gi gj)) ∧
   entry (get_distances grids) j i = Some (Z.of_nat (Levenshtein.distance gi gj))) ∧
  edit_script gi gj (Levenshtein.distance gi gj) ∧
  (∀ n, edit_script gi gj n → (Levenshtein.distance gi gj ≤ n)%nat).
Proof.
  intros Hi Hj.
  pose proof (lookup_lt_Some _ _ _ Hi) as Hi'.
  pose proof (lookup_lt_Some _ _ _ Hj) as Hj'.
  split_and!.
  - rewrite get_distances_entry by assumption. unfold cell.
    rewrite bool_decide_true by reflexivity. reflexivity.
  - intros Hne.
    rewrite !get_distances_entry by assumption.
    rewrite (cell_symmetric grids j i). unfold cell.
    rewrite bool_decide_false by exact Hne.
    rewrite (list_lookup_total_correct _ _ _ Hi), (list_lookup_total_correct _ _ _ Hj).
    split; reflexivity.
  - apply distance_edit_script.
  - intros n. apply distance_minimal.
Qed.

Lemma get_distances_contract_witness :
  entry (get_distances grids_example) 0 0 = Some 0 ∧
  (0%nat ≠ 2%nat →
   entry (get_distances grids_example) 0 2
     = Some (Z.of_nat (Levenshtein.distance "00" "11")) ∧
   entry (get_distances grids_example) 2 0
     = Some (Z.of_nat (Levenshtein.distance "00" "11"))) ∧
  edit_script "00" "11" (Levenshtein.distance "00" "11") ∧
  (∀ n, edit_script "00" "11" n → (Levenshtein.distance "00" "11" ≤ n)%nat).
Proof.
  apply (get_distances_contract grids_example 0 2 "00" "11"); reflexivity.
Defined.

(** ** The positional instances *)

Ltac lookup_instance :=
  repeat (rewrite lookup_insert_ne by done);
  first [rewrite lookup_insert_eq | unfold add_game_instance; rewrite lookup_singleton_eq];
  try reflexivity.

(** What one iteration over the slots stores, for a locale with three
    position names. *)
Lemma slot_body_fields patterns lang pa pb t s h vars i locale opts p1 p2 n0 n1 n2 :
  patterns !! lang = Some locale →
  locale !! "p2_options"%string = Some opts →
  locale !! "p1_tag"%string = Some p1 →
  locale !! "p2_tag"%string = Some p2 →
  Py.split "|" opts = [n0; n1; n2] →
  ∃ vars' inst,
    slot_body patterns lang pa pb (t, s, h) vars i = Ok (vars', inst) ∧
    game_counter vars' = game_counter vars + 1 ∧
    inst !! "game_id"%string = Some (VInt (game_counter vars)) ∧
    inst !! "player_1_target_grid"%string = Some (VStr t) ∧
    inst !! "player_1_second_grid"%string = Some (VStr s) ∧
    inst !! "player_1_third_grid"%string = Some (VStr h) ∧
    inst !! "player_2_first_grid"%string
      = Some (VStr (if bool_decide (i = 1) then t else if bool_decide (i = 2) then s
                    else if bool_decide (i = 3) then h else EmptyString)) ∧
    inst !! "player_2_second_grid"%string
      = Some (VStr (if bool_decide (i = 2) then t else s)) ∧
    inst !! "player_2_third_grid"%string
      = Some (VStr (if bool_decide (i = 3) then t else h)) ∧
    inst !! "target_grid_name"%string
      = Some (VStr (if bool_decide (i = 1) then n0 else if bool_decide (i = 2) then n1
                    else if bool_decide (i = 3) then n2 else EmptyString)).
Proof.
  intros Hlang Hopts Hp1 Hp2 Hsplit.
  unfold slot_body, _generate_regex, Py.dict_getitem.
  rewrite Hlang. cbn [mbind res_bind]. rewrite Hopts, Hp1, Hp2. cbn [mbind res_bind].
  rewrite Hsplit. cbn [length]. rewrite bool_decide_true by reflexivity.
  cbn [negb].
  destruct (decide (i = 1)) as [->|H1].
  { cbn. eexists _, _. split; [reflexivity|]. split; [reflexivity|].
    split_and!; lookup_instance. }
  rewrite (bool_decide_false (i = 1)) by exact H1.
  destruct (decide (i = 2)) as [->|H2].
  { cbn. eexists _, _. split; [reflexivity|]. split; [reflexivity|].
    split_and!; lookup_instance. }
  rewrite (bool_decide_false (i = 2)) by exact H2.
  destruct (decide (i = 3)) as [->|H3].
  { cbn. eexists _, _. split; [reflexivity|]. split; [reflexivity|].
    split_and!; lookup_instance. }
  rewrite (bool_decide_false (i = 3)) by exact H3.
  cbn. eexists _, _. split; [reflexivity|]. split; [reflexivity|].
  split_and!; lookup_instance.
Qed.

Lemma sample_body_slots patterns lang pa pb sample vars insts v1 g1 v2 g2 v3 g3 :
  slot_body patterns lang pa pb sample vars 1 = Ok (v1, g1) →
  slot_body patterns lang pa pb sample v1 2 = Ok (v2, g2) →
  slot_body patterns lang pa pb sample v2 3 = Ok (v3, g3) →
  sample_body patterns lang pa pb (vars, insts) sample
  = Ok (v3, insts ++ [g1; g2; g3]).
Proof.
  intros H1 H2 H3. unfold sample_body. cbn [for_each fst snd].
  rewrite H1. cbn [mbind res_bind fst snd]. rewrite H2. cbn [mbind res_bind fst snd].
  rewrite H3. cbn [mbind res_bind fst snd].
  rewrite <- !app_assoc. reflexivity.
Qed.

(** C2: the three instances of a triplet, in the order i = 1, 2, 3, give
    player 2 the slots (target, second, third), (second, target, third) and
    (third, second, target), and name the target's slot by the position
    tokens 0, 1 and 2 of the locale. *)
Theorem positional_instances_slots
    patterns lang pa pb target second third vars insts locale opts p1 p2 n0 n1 n2 :
  patterns !! lang = Some locale →
  locale !! "p2_options"%string = Some opts →
  locale !! "p1_tag"%string = Some p1 →
  locale !! "p2_tag"%string = Some p2 →
  Py.split "|" opts = [n0; n1; n2] →
  ∃ vars' g1 g2 g3,
    sample_body patterns lang pa pb (vars, insts) (target, second, third)
      = Ok (vars', insts ++ [g1; g2; g3]) ∧
    player_2_grids g1 = stored target second third ∧ slot_name g1 = Some (VStr n0) ∧
    player_2_grids g2 = stored second target third ∧ slot_name g2 = Some (VStr n1) ∧
    player_2_grids g3 = stored third second target ∧ slot_name g3 = Some (VStr n2).
Proof.
  intros Hlang Hopts Hp1 Hp2 Hsplit.
  destruct (slot_body_fields patterns lang pa pb target second third vars 1
              locale opts p1 p2 n0 n1 n2 Hlang Hopts Hp1 Hp2 Hsplit)
    as (v1 & g1 & Hb1 & _ & _ & _ & _ & _ & Hf1 & Hs1 & Ht1 & Hn1).
  destruct (slot_body_fields patterns lang pa pb target second third v1 2
              locale opts p1 p2 n0 n1 n2 Hlang Hopts Hp1 Hp2 Hsplit)
    as (v2 & g2 & Hb2 & _ & _ & _ & _ & _ & Hf2 & Hs2 & Ht2 & Hn2).
  destruct (slot_body_fields patterns lang pa pb target second third v2 3
              locale opts p1 p2 n0 n1 n2 Hlang Hopts Hp1 Hp2 Hsplit)
    as (v3 & g3 & Hb3 & _ & _ & _ & _ & _ & Hf3 & Hs3 & Ht3 & Hn3).
  exists v3, g1, g2, g3.
  split; [eapply sample_body_slots; eassumption|].
  unfold player_2_grids, slot_name, stored.
  rewrite Hf1, Hs1, Ht1, Hn1, Hf2, Hs2, Ht2, Hn2, Hf3, Hs3, Ht3, Hn3.
  split_and!; reflexivity.
Qed.

Lemma positional_instances_slots_witness :
  ∃ vars' g1 g2 g3,
    sample_body patterns_example "en" "" "" (og_unbound, []) ("T", "S", "H")%string
      = Ok (vars', [] ++ [g1; g2; g3]) ∧
    player_2_grids g1 = stored "T" "S" "H" ∧ slot_name g1 = Some (VStr "first") ∧
    player_2_grids g2 = stored "S" "T" "H" ∧ slot_name g2 = Some (VStr "second") ∧
    player_2_grids g3 = stored "H" "S" "T" ∧ slot_name g3 = Some (VStr "third").
Proof.
  apply (positional_instances_slots patterns_example "en" "" "" "T" "S" "H"
           og_unbound []
           (locale_of "Expression:" "Answer:" "first|second|third")
           "first|second|third" "Expression:" "Answer:"
           "first" "second" "third"); reflexivity.
Defined.

(** C9: in each of the three instances of a triplet the player-1 fields
    hold the triplet's own target, second and third grid, whatever the
    earlier iterations left in the variables; the reassignments only show
    in the variables themselves, where the last iteration leaves the target
    in [third_grid]. *)
Theorem positional_instances_player_1
    patterns lang pa pb target second third vars insts locale opts p1 p2 n0 n1 n2 :
  patterns !! lang = Some locale →
  locale !! "p2_options"%string = Some opts →
  locale !! "p1_tag"%string = Some p1 →
  locale !! "p2_tag"%string = Some p2 →
  Py.split "|" opts = [n0; n1; n2] →
  ∃ vars' g1 g2 g3,
    sample_body patterns lang pa pb (vars, insts) (target, second, third)
      = Ok (vars', insts ++ [g1; g2; g3]) ∧
    player_1_grids g1 = stored target second third ∧
    player_1_grids g2 = stored target second third ∧
    player_1_grids g3 = stored target second third ∧
    (second_grid vars', third_grid vars') = (second, target).
Proof.
  intros Hlang Hopts Hp1 Hp2 Hsplit.
  destruct (slot_body_fields patterns lang pa pb target second third vars 1
              locale opts p1 p2 n0 n1 n2 Hlang Hopts Hp1 Hp2 Hsplit)
    as (v1 & g1 & Hb1 & _ & _ & Ht1 & Hs1 & Hh1 & _).
  destruct (slot_body_fields patterns lang pa pb target second third v1 2
              locale opts p1 p2 n0 n1 n2 Hlang Hopts Hp1 Hp2 Hsplit)
    as (v2 & g2 & Hb2 & _ & _ & Ht2 & Hs2 & Hh2 & _).
  destruct (slot_body_fields patterns lang pa pb target second third v2 3
              locale opts p1 p2 n0 n1 n2 Hlang Hopts Hp1 Hp2 Hsplit)
    as (v3 & g3 & Hb3 & _ & _ & Ht3 & Hs3 & Hh3 & _).
  exists v3, g1, g2, g3.
  split; [eapply sample_body_slots; eassumption|].
  unfold player_1_grids, stored.
  rewrite Ht1, Hs1, Hh1, Ht2, Hs2, Hh2, Ht3, Hs3, Hh3.
  split_and!; try reflexivity.
  revert Hb3. unfold slot_body, _generate_regex, Py.dict_getitem.
  rewrite Hlang. cbn [mbind res_bind]. rewrite Hopts, Hp1, Hp2. cbn [mbind res_bind].
  rewrite Hsplit. cbn. intros [= <- _]. reflexivity.
Qed.

Lemma positional_instances_player_1_witness :
  ∃ vars' g1 g2 g3,
    sample_body patterns_example "en" "" "" (og_unbound, []) ("T", "S", "H")%string
      = Ok (vars', [] ++ [g1; g2; g3]) ∧
    player_1_grids g1 = stored "T" "S" "H" ∧
    player_1_grids g2 = stored "T" "S" "H" ∧
    player_1_grids g3 = stored "T" "S" "H" ∧
    (second_grid vars', third_grid vars') = ("S", "T")%string.
Proof.
  apply (positional_instances_player_1 patterns_example "en" "" "" "T" "S" "H"
           og_unbound []
           (locale_of "Expression:" "Answer:" "first|second|third")
           "first|second|third" "Expression:" "Answer:"
           "first" "second" "third"); reflexivity.
Defined.

(** ** The check of [p2_options] *)

Lemma slot_body_assertion patterns lang pa pb sample vars i locale opts :
  patterns !! lang = Some locale →
  locale !! "p2_options"%string = Some opts →
  length (Py.split "|" opts) ≠ 3%nat →
  slot_body patterns lang pa pb sample vars i = Raise AssertionError.
Proof.
  intros Hlang Hopts Hlen. destruct sample as [[t s] h].
  unfold slot_body, Py.dict_getitem.
  rewrite Hlang. cbn [mbind res_bind]. rewrite Hopts. cbn [mbind res_bind].
  rewrite bool_decide_false by exact Hlen. reflexivity.
Qed.

Lemma split_three opts :
  length (Py.split "|" opts) = 3%nat → ∃ n0 n1 n2, Py.split "|" opts = [n0; n1; n2].
Proof.
  destruct (Py.split "|" opts) as [|n0 [|n1 [|n2 [|n3 l]]]]; try discriminate.
  eauto.
Qed.

Lemma sample_body_assertion patterns lang pa pb sample acc locale opts :
  patterns !! lang = Some locale →
  locale !! "p2_options"%string = Some opts →
  length (Py.split "|" opts) ≠ 3%nat →
  sample_body patterns lang pa pb acc sample = Raise AssertionError.
Proof.
  intros Hlang Hopts Hlen. unfold sample_body. cbn [for_each].
  rewrite (slot_body_assertion _ _ _ _ _ _ _ locale opts) by assumption.
  reflexivity.
Qed.

(** The whole generation stops at the check as soon as a group has a
    sample. *)
Lemma on_generate_assertion fuel patterns files grids_group group grids lang
    locale opts pa pb sample samples :
  patterns !! lang = Some locale →
  locale !! "p2_options"%string = Some opts →
  length (Py.split "|" opts) ≠ 3%nat →
  _load_prompt files lang "player_a_prompt_header.template" = Ok pa →
  _load_prompt files lang "player_b_prompt_header.template" = Ok pb →
  generate_samples fuel group = Some (Ok (sample :: samples)) →
  on_generate fuel patterns files ((grids_group, group) :: grids) lang
  = Some (Raise AssertionError).
Proof.
  intros Hlang Hopts Hlen Hpa Hpb Hsamples.
  unfold on_generate. cbn [on_generate_loop]. rewrite Hsamples.
  unfold group_body. rewrite Hpa, Hpb. cbn [mbind res_bind for_each].
  rewrite (sample_body_assertion _ _ _ _ _ _ locale opts) by assumption.
  reflexivity.
Qed.

Example split_empty_token : Py.split "|" "first||third" = ["first"; ""; "third"]%string.
Proof. reflexivity. Qed.

(** C5, as stated, fails: "first||third" does not split into three
    non-empty tokens, and the generation of a group of three grids runs to
    its end with nine instances instead of stopping at the check. *)
Lemma p2_options_nonempty_counterexample :
  ¬ three_nonempty_tokens "first||third" ∧
  ∃ instances,
    on_generate 3 patterns_empty_token files_example [("g"%string, grids_example)] "en"
    = Some (Ok [{| experiment_name := "g"; game_instances := instances |}]) ∧
    length instances = 9%nat ∧
    slot_name <$> instances
    = Some <$> [VStr "first"; VStr ""; VStr "third";
                VStr "first"; VStr ""; VStr "third";
                VStr "first"; VStr ""; VStr "third"].
Proof.
  split.
  - intros (a & b & c & Hsplit & _ & Hb & _).
    rewrite split_empty_token in Hsplit. injection Hsplit as _ <- _.
    apply Hb. reflexivity.
  - eexists. split; [vm_compute; reflexivity|].
    split; vm_compute; reflexivity.
Qed.

(** C5, amended: an instance stops at the assertion exactly when
    [p2_options] does not split on the bar into three tokens, whether empty
    or not; with three tokens, and both tags in the locale, it is
    completed; without three tokens the whole generation fails at its first
    sample. *)
Theorem p2_options_assertion patterns lang pa pb sample vars i locale opts :
  patterns !! lang = Some locale →
  locale !! "p2_options"%string = Some opts →
  (length (Py.split "|" opts) ≠ 3%nat ↔
   slot_body patterns lang pa pb sample vars i = Raise AssertionError) ∧
  (length (Py.split "|" opts) = 3%nat →
   is_Some (locale !! "p1_tag"%string) → is_Some (locale !! "p2_tag"%string) →
   ∃ r, slot_body patterns lang pa pb sample vars i = Ok r) ∧
  (length (Py.split "|" opts) ≠ 3%nat →
   ∀ fuel files grids_group group grids first_sample samples,
     _load_prompt files lang "player_a_prompt_header.template" = Ok pa →
     _load_prompt files lang "player_b_prompt_header.template" = Ok pb →
     generate_samples fuel group = Some (Ok (first_sample :: samples)) →
     on_generate fuel patterns files ((grids_group, group) :: grids) lang
     = Some (Raise AssertionError)).
Proof.
  intros Hlang Hopts. split_and!.
  - split; [intros Hlen; eapply slot_body_assertion; eassumption|].
    intros Hraise Hlen. destruct sample as [[t s] h].
    revert Hraise. unfold slot_body, Py.dict_getitem.
    rewrite Hlang. cbn [mbind res_bind]. rewrite Hopts. cbn [mbind res_bind].
    rewrite bool_decide_true by exact Hlen. cbn [negb].
    destruct (split_three opts Hlen) as (n0 & n1 & n2 & ->).
    unfold _generate_regex, Py.dict_getitem. rewrite Hlang. cbn [mbind res_bind].
    rewrite Hopts.
    destruct (bool_decide (i = 1)), (bool_decide (i = 2)), (bool_decide (i = 3));
      cbn; destruct (locale !! "p1_tag"%string); cbn; try discriminate;
      destruct (locale !! "p2_tag"%string); cbn; discriminate.
  - intros Hlen [p1 Hp1] [p2 Hp2]. destruct sample as [[t s] h].
    destruct (split_three opts Hlen) as (n0 & n1 & n2 & Hsplit).
    destruct (slot_body_fields patterns lang pa pb t s h vars i
                locale opts p1 p2 n0 n1 n2 Hlang Hopts Hp1 Hp2 Hsplit)
      as (v & g & Hb & _).
    eauto.
  - intros Hlen fuel files grids_group group grids first_sample samples Hpa Hpb Hs.
    eapply on_generate_assertion; eassumption.
Qed.

Lemma p2_options_assertion_witness :
  (length (Py.split "|" "first|second") ≠ 3%nat ↔
   slot_body patterns_two_tokens "en" "" "" ("T", "S", "H")%string og_unbound 1
   = Raise AssertionError) ∧
  (∃ r, slot_body patterns_empty_token "en" "" "" ("T", "S", "H")%string og_unbound 1
        = Ok r) ∧
  on_generate 3 patterns_two_tokens files_example [("g"%string, grids_example)] "en"
  = Some (Raise AssertionError).
Proof.
  split_and!.
  - apply (p2_options_assertion patterns_two_tokens "en" "" "" ("T", "S", "H")%string
             og_unbound 1 (locale_of "Expression:" "Answer:" "first|second")
             "first|second"); reflexivity.
  - apply (p2_options_assertion patterns_empty_token "en" "" "" ("T", "S", "H")%string
             og_unbound 1 (locale_of "Expression:" "Answer:" "first||third")
             "first||third"); try reflexivity; eexists; reflexivity.
  - apply (proj2 (proj2 (p2_options_assertion patterns_two_tokens "en"
             "Target: TARGET_GRID Second: SECOND_GRID Third: THIRD_GRID"
             "First: FIRST_GRID Second: SECOND_GRID Third: THIRD_GRID"
             ("T", "S", "H")%string
             og_unbound 1 (locale_of "Expression:" "Answer:" "first|second")
             "first|second" eq_refl eq_refl)))
      with (first_sample := ("00", "01", "11")%string)
           (samples := [("01", "00", "11"); ("11", "01", "00")]%string);
      try reflexivity.
    simpl. lia.
Defined.

(** ** The response pattern *)

Lemma read_all_app s1 : ∀ st s2,
  Re.read_all st (s1 +:+ s2) = Re.read_all st s1 ≫= λ st', Re.read_all st' s2.
Proof.
  induction s1 as [|c s1 IH]; intros st s2; simpl; [reflexivity|].
  destruct (Re.read st c); simpl; [apply IH | reflexivity].
Qed.

Lemma read_plain_char st c :
  Re.is_meta c = false → Re.r_mode st = Re.Normal →
  Re.read st c = Some (Re.push_item st (Re.Char c) true).
Proof.
  intros Hc Hmode. unfold Re.read. rewrite Hmode. unfold Re.read_normal.
  unfold Re.is_meta in Hc. cbn [existsb] in Hc.
  repeat (apply orb_false_elim in Hc as [? Hc]).
  repeat match goal with H : Ascii.eqb _ _ = false |- _ => rewrite H; clear H end.
  reflexivity.
Qed.

Lemma read_all_plain w : ∀ st,
  Re.plain w = true → Re.r_mode st = Re.Normal →
  Re.read_all st w = Some (read_plain_text st w).
Proof.
  induction w as [|c w IH]; intros st Hw Hmode.
  - destruct st as [m cur enc rep names], cur as [n a items]. simpl in *. subst m.
    reflexivity.
  - simpl in Hw. apply andb_true_iff in Hw as [Hc Hw].
    apply negb_true_iff in Hc.
    cbn [Re.read_all]. rewrite read_plain_char by assumption.
    rewrite IH by (assumption || reflexivity).
    unfold read_plain_text, Re.push_item. cbn.
    rewrite <- app_assoc. cbn. f_equal. destruct w; reflexivity.
Qed.

Lemma split_nonempty sep s : Py.split sep s ≠ [].
Proof.
  destruct s as [|c s]; simpl; [discriminate|].
  destruct (Ascii.eqb c sep); [discriminate|].
  destruct (Py.split sep s); discriminate.
Qed.

(** Joining the tokens with the separator gives the string back. *)
Lemma split_join sep s :
  String.concat (String sep EmptyString) (Py.split sep s) = s.
Proof.
  induction s as [|c s IH]; [reflexivity|].
  pose proof (split_nonempty sep s) as Hne. simpl.
  destruct (Ascii.eqb_spec c sep) as [->|_].
  - destruct (Py.split sep s) as [|tok toks]; [congruence|].
    rewrite <- IH. reflexivity.
  - destruct (Py.split sep s) as [|tok toks]; [congruence|].
    rewrite <- IH. destruct toks; reflexivity.
Qed.

Lemma split_three_join opts n0 n1 n2 :
  Py.split "|" opts = [n0; n1; n2] → opts = n0 +:+ "|" +:+ n1 +:+ "|" +:+ n2.
Proof.
  intros H. rewrite <- (split_join "|" opts), H. reflexivity.
Qed.

Lemma read_bol : Re.read_all Re.reader_init "^"
  = Some {| Re.r_mode := Re.Normal;
            Re.r_current := {| Re.f_name := None; Re.f_alts := []; Re.f_items := [Re.Bol] |};
            Re.r_enclosing := []; Re.r_repeatable := false; Re.r_names := [] |}.
Proof. reflexivity. Qed.

Lemma read_open_content cur enc rep :
  Re.read_all {| Re.r_mode := Re.Normal; Re.r_current := cur;
                 Re.r_enclosing := enc; Re.r_repeatable := rep; Re.r_names := [] |}
              "\s*(?P<content>"
  = Some {| Re.r_mode := Re.Normal;
            Re.r_current := {| Re.f_name := Some "content"%string;
                               Re.f_alts := []; Re.f_items := [] |};
            Re.r_enclosing :=
              {| Re.f_name := Re.f_name cur; Re.f_alts := Re.f_alts cur;
                 Re.f_items := Re.Star Re.Space :: Re.f_items cur |} :: enc;
            Re.r_repeatable := false; Re.r_names := ["content"%string] |}.
Proof. destruct cur. reflexivity. Qed.

Lemma read_bar cur enc rep names :
  Re.read_all {| Re.r_mode := Re.Normal; Re.r_current := cur;
                 Re.r_enclosing := enc; Re.r_repeatable := rep; Re.r_names := names |}
              "|"
  = Some {| Re.r_mode := Re.Normal;
            Re.r_current := {| Re.f_name := Re.f_name cur;
                               Re.f_alts := Re.f_alts cur
                                 ++ [Re.seq_of (rev (Re.f_items cur))];
                               Re.f_items := [] |};
            Re.r_enclosing := enc; Re.r_repeatable := false; Re.r_names := names |}.
Proof. reflexivity. Qed.

Lemma read_close_tail cur parent enc rep :
  Re.read_all {| Re.r_mode := Re.Normal; Re.r_current := cur;
                 Re.r_enclosing := parent :: enc; Re.r_repeatable := rep;
                 Re.r_names := ["content"%string] |}
              (")" +:+ newline +:+ "*(?P<remainder>.*)")
  = Some {| Re.r_mode := Re.Normal;
            Re.r_current :=
              {| Re.f_name := Re.f_name parent; Re.f_alts := Re.f_alts parent;
                 Re.f_items := rev p2_tail ++
                               Re.Group (Re.f_name cur) (Re.frame_regex cur)
                               :: Re.f_items parent |};
            Re.r_enclosing := enc; Re.r_repeatable := true;
            Re.r_names := ["remainder"; "content"]%string |}.
Proof. destruct cur, parent. reflexivity. Qed.

Ltac reader_simpl :=
  cbn [mbind option_bind]; unfold read_plain_text at 1;
  cbn [Re.r_mode Re.r_current Re.r_enclosing Re.r_repeatable Re.r_names
       Re.f_name Re.f_alts Re.f_items].

Lemma compile_p2 tag n0 n1 n2 :
  Re.plain tag = true → Re.plain n0 = true → Re.plain n1 = true → Re.plain n2 = true →
  Re.compile ("^" +:+ tag +:+ "\s*(?P<content>" +:+ (n0 +:+ "|" +:+ n1 +:+ "|" +:+ n2)
                  +:+ ")" +:+ newline +:+ "*(?P<remainder>.*)")
  = Some (p2_regex tag n0 n1 n2).
Proof.
  intros Htag H0 H1 H2. unfold Re.compile.
  rewrite read_all_app, read_bol. cbn [mbind option_bind].
  rewrite read_all_app, read_all_plain by (assumption || reflexivity).
  reader_simpl.
  rewrite read_all_app, read_open_content. cbn [mbind option_bind].
  rewrite 2!read_all_app, read_all_plain by (assumption || reflexivity).
  reader_simpl.
  rewrite read_all_app, read_bar. cbn [mbind option_bind].
  rewrite read_all_app, read_all_plain by (assumption || reflexivity).
  reader_simpl.
  rewrite read_all_app, read_bar. cbn [mbind option_bind].
  rewrite read_all_plain by (assumption || reflexivity).
  reader_simpl.
  rewrite read_close_tail.
  cbn [Re.r_mode Re.r_current Re.r_enclosing Re.r_repeatable Re.r_names
       Re.f_name Re.f_alts Re.f_items].
  rewrite !app_nil_r, !rev_involutive. unfold Re.frame_regex.
  cbn [Re.f_alts Re.f_items app Re.alt_of].
  rewrite rev_involutive. unfold p2_regex, p2_names. do 2 f_equal.
  rewrite rev_app_distr, rev_involutive. cbn [rev].
  rewrite rev_app_distr, rev_involutive. cbn [rev app].
  rewrite <- !app_assoc. reflexivity.
Qed.

(** *** Matching literal text *)

Lemma string_length_app (w s : string) :
  String.length (w +:+ s) = (String.length w + String.length s)%nat.
Proof. induction w as [|c w IH]; simpl; [reflexivity | rewrite IH; reflexivity]. Qed.

Lemma substring_app (w s : string) : String.substring 0 (String.length w) (w +:+ s) = w.
Proof.
  induction w as [|c w IH]; simpl.
  - destruct s; reflexivity.
  - rewrite IH. reflexivity.
Qed.

Lemma consumed_app (w s : string) : Re.consumed (w +:+ s) s = w.
Proof.
  unfold Re.consumed. rewrite string_length_app.
  replace (String.length w + String.length s - String.length s)%nat
    with (String.length w) by lia.
  apply substring_app.
Qed.

Lemma prefix_app (w s : string) :
  String.prefix w s = true → ∃ s', s = w +:+ s'.
Proof.
  revert s. induction w as [|c w IH]; intros s H.
  - exists s. reflexivity.
  - destruct s as [|c' s]; simpl in H; [discriminate|].
    destruct (ascii_dec c c') as [<-|]; [|discriminate].
    destruct (IH s H) as [s' ->]. exists s'. reflexivity.
Qed.

Lemma exec_chars w items k groups : ∀ pos s,
  Re.exec (Re.seq_of (Re.chars w ++ items)) pos (w +:+ s) groups k
  = Re.exec (Re.seq_of items) (pos + String.length w) s groups k.
Proof.
  induction w as [|c w IH]; intros pos s.
  - simpl. rewrite Nat.add_0_r. reflexivity.
  - cbn [Re.chars app Re.seq_of foldr Re.exec String.length].
    change (String c w +:+ s) with (String c (w +:+ s)). cbn iota.
    rewrite Ascii.eqb_refl.
    change (foldr Re.Cat Re.Empty (Re.chars w ++ items))
      with (Re.seq_of (Re.chars w ++ items)).
    rewrite IH. f_equal. lia.
Qed.

Lemma exec_chars_fail w k groups : ∀ pos s,
  String.prefix w s = false →
  Re.exec (Re.seq_of (Re.chars w)) pos s groups k = None.
Proof.
  induction w as [|c w IH]; intros pos s H; [destruct s; discriminate|].
  cbn [Re.chars Re.seq_of foldr Re.exec].
  destruct s as [|c' s]; [reflexivity|].
  simpl in H. destruct (ascii_dec c c') as [<-|Hne].
  - rewrite Ascii.eqb_refl. apply IH, H.
  - apply Ascii.eqb_neq in Hne. rewrite Hne. reflexivity.
Qed.

Lemma exec_name n k groups pos s :
  Re.exec (Re.seq_of (Re.chars n)) pos (n +:+ s) groups k
  = k (pos + String.length n)%nat s groups.
Proof.
  rewrite <- (app_nil_r (Re.chars n)), exec_chars. reflexivity.
Qed.

(** *** Repetition of a single character *)

Lemma star_loop_S step k budget pos s groups :
  Re.star_loop step k (S budget) pos s groups
  = match step pos s groups
            (λ pos' s' groups',
               if Nat.ltb pos pos' then Re.star_loop step k budget pos' s' groups'
               else None)
    with
    | Some result => Some result
    | None => k pos s groups
    end.
Proof. reflexivity. Qed.

(** With a continuation that always succeeds, the repetition succeeds,
    with a result of the continuation. *)
Lemma star_loop_succeeds a (P : ascii → bool) k groups (Q : gmap string string → Prop) :
  (∀ pos s g k',
     Re.exec a pos s g k'
     = match s with
       | String c s' => if P c then k' (S pos) s' g else None
       | EmptyString => None
       end) →
  (∀ pos s, ∃ result, k pos s groups = Some result ∧ Q result) →
  ∀ budget pos s,
    ∃ result, Re.star_loop (Re.exec a) k budget pos s groups = Some result ∧ Q result.
Proof.
  intros Ha Hk. induction budget as [|budget IH]; intros pos s; [apply Hk|].
  rewrite star_loop_S, Ha.
  destruct s as [|c s]; [apply Hk|].
  destruct (P c); [|apply Hk].
  rewrite (proj2 (Nat.ltb_lt pos (S pos))) by lia.
  destruct (IH (S pos) s) as (result & Hresult & HQ).
  rewrite Hresult. eauto.
Qed.

(** A repetition of whitespace in front of something else is empty. *)
Lemma exec_star_space pos s groups k :
  starts_with_space s = false →
  Re.exec (Re.Star Re.Space) pos s groups k = k pos s groups.
Proof.
  intros H. cbn [Re.exec]. destruct s as [|c s]; [reflexivity|].
  simpl in H. cbn [String.length]. rewrite star_loop_S. cbn [Re.exec].
  rewrite H. reflexivity.
Qed.

(** What follows the [content] group always matches, and only adds the
    group [remainder]. *)
Lemma exec_p2_tail pos s groups :
  ∃ text,
    Re.exec (Re.seq_of p2_tail) pos s groups (λ _ _ g, Some g)
    = Some (<["remainder"%string := text]> groups).
Proof.
  unfold p2_tail. cbn [Re.seq_of foldr Re.exec].
  destruct (star_loop_succeeds (Re.Char Re.line_feed) (Ascii.eqb Re.line_feed)
              (λ pos' s' groups',
                 Re.star_loop (Re.exec Re.AnyChar)
                   (λ pos'0 s'0 groups'0,
                      Some (Re.set_group (Some "remainder"%string)
                                         (Re.consumed s' s'0) groups'0))
                   (String.length s') pos' s' groups')
              groups
              (λ result, ∃ text, result = <["remainder"%string := text]> groups))
    with (budget := String.length s) (pos := pos) (s := s)
    as (result & Hresult & text & ->).
  - intros pos' s' g k'. reflexivity.
  - intros pos' s'.
    apply (star_loop_succeeds Re.AnyChar (λ c, negb (Ascii.eqb c Re.line_feed))).
    + intros pos'' s'' g k'. cbn [Re.exec]. destruct s'' as [|c s'']; [reflexivity|].
      destruct (Ascii.eqb c Re.line_feed); reflexivity.
    + intros pos'' s''. eexists. split; [reflexivity|]. cbn. eauto.
  - exists text. exact Hresult.
Qed.

(** *** The player-2 pattern *)

Lemma exec_Cat r1 r2 pos s groups k :
  Re.exec (Re.Cat r1 r2) pos s groups k
  = Re.exec r1 pos s groups (λ pos' s' groups', Re.exec r2 pos' s' groups' k).
Proof. reflexivity. Qed.

Lemma exec_Alt r1 r2 pos s groups k :
  Re.exec (Re.Alt r1 r2) pos s groups k
  = match Re.exec r1 pos s groups k with
    | Some result => Some result
    | None => Re.exec r2 pos s groups k
    end.
Proof. reflexivity. Qed.

Lemma exec_Group name r pos s groups k :
  Re.exec (Re.Group name r) pos s groups k
  = Re.exec r pos s groups
      (λ pos' s' groups', k pos' s' (Re.set_group name (Re.consumed s s') groups')).
Proof. reflexivity. Qed.

Lemma exec_Star r pos s groups k :
  Re.exec (Re.Star r) pos s groups k
  = Re.star_loop (Re.exec r) k (String.length s) pos s groups.
Proof. reflexivity. Qed.

(** The end of the pattern, from the [content] group on: the first
    position name that the text starts with is captured, and what follows
    the name is left to the rest of the pattern. *)
Lemma exec_p2_answer n0 n1 n2 pos w groups :
  match first_name [n0; n1; n2] w with
  | Some name =>
      ∃ rest, w = name +:+ rest ∧
        Re.exec (p2_answer n0 n1 n2) pos w groups (λ _ _ g, Some g)
        = Re.exec (Re.seq_of p2_tail) (pos + String.length name) rest
                  (<["content"%string := name]> groups) (λ _ _ g, Some g)
  | None => Re.exec (p2_answer n0 n1 n2) pos w groups (λ _ _ g, Some g) = None
  end.
Proof.
  unfold p2_answer, p2_names.
  rewrite exec_Cat, exec_Group, !exec_Alt.
  unfold first_name. cbn [List.find].
  destruct (String.prefix n0 w) eqn:H0.
  { destruct (prefix_app _ _ H0) as [rest ->]. exists rest. split; [reflexivity|].
    rewrite exec_name, consumed_app. cbn [Re.set_group].
    destruct (exec_p2_tail (pos + String.length n0) rest
                (<["content"%string := n0]> groups)) as [text ->].
    reflexivity. }
  rewrite exec_chars_fail by exact H0.
  destruct (String.prefix n1 w) eqn:H1.
  { destruct (prefix_app _ _ H1) as [rest ->]. exists rest. split; [reflexivity|].
    rewrite !exec_name, consumed_app. cbn [Re.set_group].
    destruct (exec_p2_tail (pos + String.length n1) rest
                (<["content"%string := n1]> groups)) as [text ->].
    reflexivity. }
  rewrite exec_chars_fail by exact H1.
  destruct (String.prefix n2 w) eqn:H2.
  { destruct (prefix_app _ _ H2) as [rest ->]. exists rest. split; [reflexivity|].
    rewrite !exec_name, consumed_app. reflexivity. }
  apply exec_chars_fail, H2.
Qed.

Lemma solid_not_prefix name text :
  solid name = true → starts_with_space text = true → String.prefix name text = false.
Proof.
  destruct name as [|c name]; [discriminate|]. destruct text as [|c' text]; [discriminate|].
  simpl. intros Hc Hc'. destruct (ascii_dec c c') as [->|]; [|reflexivity].
  rewrite Hc' in Hc. discriminate.
Qed.

Lemma solid_first_name n0 n1 n2 text :
  solid n0 = true → solid n1 = true → solid n2 = true →
  starts_with_space text = true → first_name [n0; n1; n2] text = None.
Proof.
  intros H0 H1 H2 Ht. unfold first_name. cbn [List.find].
  rewrite !solid_not_prefix by assumption. reflexivity.
Qed.

(** Whitespace in front of a text is taken whole by the repetition of
    [\s] when what follows in the pattern cannot start with whitespace. *)
Lemma star_space_skip k groups :
  (∀ pos s, starts_with_space s = true → k pos s groups = None) →
  ∀ ws pos s budget,
    all_space ws = true → starts_with_space s = false →
    (String.length ws ≤ budget)%nat →
    Re.star_loop (Re.exec Re.Space) k budget pos (ws +:+ s) groups
    = k (pos + String.length ws)%nat s groups.
Proof.
  intros Hk. induction ws as [|c ws IH]; intros pos s budget Hws Hs Hbudget.
  - change (EmptyString +:+ s) with s. cbn [String.length]. rewrite Nat.add_0_r.
    destruct budget as [|budget]; [reflexivity|].
    rewrite star_loop_S. cbn [Re.exec].
    destruct s as [|c s]; [reflexivity|]. simpl in Hs. rewrite Hs. reflexivity.
  - simpl in Hws. apply andb_true_iff in Hws as [Hc Hws].
    cbn [String.length] in *. destruct budget as [|budget]; [lia|].
    change (String c ws +:+ s) with (String c (ws +:+ s)).
    rewrite star_loop_S. cbn [Re.exec]. rewrite Hc.
    rewrite (proj2 (Nat.ltb_lt pos (S pos))) by lia.
    rewrite IH by (assumption || lia).
    replace (pos + S (String.length ws))%nat with (S pos + String.length ws)%nat by lia.
    destruct (k (S pos + String.length ws)%nat s groups) eqn:Hdeep; [reflexivity|].
    apply Hk. simpl. exact Hc.
Qed.

(** The match of the compiled pattern against the tag, whitespace and a
    text that does not start with whitespace. *)
Lemma p2_regex_match tag n0 n1 n2 ws w :
  solid n0 = true → solid n1 = true → solid n2 = true →
  all_space ws = true → starts_with_space w = false →
  Re.match_ (p2_regex tag n0 n1 n2) (tag +:+ ws +:+ w)
  = Re.exec (p2_answer n0 n1 n2) (String.length tag + String.length ws) w ∅
            (λ _ _ g, Some g).
Proof.
  intros H0 H1 H2 Hws Hw. unfold Re.match_, p2_regex.
  change (Re.seq_of ([Re.Bol] ++ Re.chars tag ++
                     [Re.Star Re.Space;
                      Re.Group (Some "content"%string) (p2_names n0 n1 n2)] ++ p2_tail))
    with (Re.Cat Re.Bol (Re.seq_of (Re.chars tag ++
                                    [Re.Star Re.Space;
                                     Re.Group (Some "content"%string) (p2_names n0 n1 n2)]
                                    ++ p2_tail))).
  rewrite exec_Cat. cbn [Re.exec Nat.eqb].
  rewrite exec_chars.
  change (Re.seq_of ([Re.Star Re.Space;
                      Re.Group (Some "content"%string) (p2_names n0 n1 n2)] ++ p2_tail))
    with (Re.Cat (Re.Star Re.Space) (p2_answer n0 n1 n2)).
  rewrite exec_Cat, exec_Star. cbn [Nat.add].
  apply star_space_skip; try assumption.
  - intros pos s Hs.
    pose proof (exec_p2_answer n0 n1 n2 pos s ∅) as Hanswer.
    rewrite solid_first_name in Hanswer by assumption. exact Hanswer.
  - rewrite string_length_app. lia.
Qed.

Lemma exec_p2_tail_end pos groups :
  Re.exec (Re.seq_of p2_tail) pos EmptyString groups (λ _ _ g, Some g)
  = Some (<["remainder"%string := EmptyString]> groups).
Proof. reflexivity. Qed.

Lemma app_same_empty (w rest : string) : w = w +:+ rest → rest = EmptyString.
Proof.
  intros H. apply (f_equal String.length) in H. rewrite string_length_app in H.
  destruct rest; [reflexivity | simpl in H; lia].
Qed.

Lemma generate_regex_p2 patterns lang locale tag opts :
  patterns !! lang = Some locale →
  locale !! "p2_tag"%string = Some tag →
  locale !! "p2_options"%string = Some opts →
  _generate_regex patterns lang "p2"
  = Ok (VStr ("^" +:+ tag +:+ "\s*(?P<content>" +:+ opts +:+ ")" +:+ newline
                  +:+ "*(?P<remainder>.*)")).
Proof.
  intros Hlang Htag Hopts. unfold _generate_regex, Py.dict_getitem.
  change (String.eqb "p2" "p1") with false. change (String.eqb "p2" "p2") with true.
  cbn iota. rewrite Hlang. cbn [mbind res_bind]. rewrite Htag, Hopts. reflexivity.
Qed.

Example p2_pattern_example :
  _generate_regex patterns_example "en" "p2"
    = Ok (VStr ("^Answer:\s*(?P<content>first|second|third)" +:+ newline
                  +:+ "*(?P<remainder>.*)")) ∧
  Re.match_pattern ("^Answer:\s*(?P<content>first|second|third)" +:+ newline
                      +:+ "*(?P<remainder>.*)")
                   ("Answer: second" +:+ newline +:+ "because")
    = Some (Some (<["remainder"%string := "because"%string]>
                    {[ "content"%string := "second"%string ]})) ∧
  Re.match_pattern ("^Answer:\s*(?P<content>first|second|third)" +:+ newline
                      +:+ "*(?P<remainder>.*)")
                   "Answer: fourth"
    = Some None.
Proof. split_and!; vm_compute; reflexivity. Qed.

(** A position name that starts a later one takes its place in the
    [content] group. *)
Example p2_pattern_prefixed :
  ∃ pattern,
    _generate_regex patterns_prefixed "en" "p2" = Ok (VStr pattern) ∧
    Re.match_pattern pattern "Answer:leftmost"
    = Some (Some (<["remainder"%string := "most"%string]>
                    {[ "content"%string := "left"%string ]})).
Proof. eexists. split; vm_compute; reflexivity. Qed.

(** C8, as stated, fails: with the tag "Answer (B):" the parentheses of
    the tag are read as a group, and the pattern does not match the tag
    followed by the position name "first". *)
Lemma p2_pattern_counterexample : ¬ p2_pattern_accepts patterns_parenthesised "en".
Proof.
  intros H.
  destruct (H (locale_of "Expression:" "Answer (B):" "first|second|third")
              "Answer (B):"%string "first|second|third"%string
              "first"%string "second"%string "third"%string "first"%string)
    as (pattern & groups & Hpattern & Hmatch & _);
    try reflexivity; [apply list_elem_of_here|].
  assert (_generate_regex patterns_parenthesised "en" "p2"
          = Ok (VStr ("^Answer (B):\s*(?P<content>first|second|third)" +:+ newline
                        +:+ "*(?P<remainder>.*)"))) as Hgen
    by (vm_compute; reflexivity).
  rewrite Hgen in Hpattern. injection Hpattern as <-.
  vm_compute in Hmatch. discriminate.
Qed.

(** C8, amended: for a locale whose p2_tag and three position names hold
    no character with a special meaning in a pattern, and whose position
    names are not empty and do not start with whitespace, the player-2
    pattern matches the tag, optional whitespace and a position name that
    no earlier position name is a prefix of, and captures the name in
    [content]; it does not match the tag, optional whitespace and a text
    that starts with none of the position names. *)
Theorem p2_pattern_sound patterns lang locale tag opts n0 n1 n2 :
  patterns !! lang = Some locale →
  locale !! "p2_tag"%string = Some tag →
  locale !! "p2_options"%string = Some opts →
  Py.split "|" opts = [n0; n1; n2] →
  Re.plain tag = true → Re.plain n0 = true → Re.plain n1 = true → Re.plain n2 = true →
  solid n0 = true → solid n1 = true → solid n2 = true →
  ∃ pattern,
    _generate_regex patterns lang "p2" = Ok (VStr pattern) ∧
    (∀ ws name,
       all_space ws = true → name ∈ [n0; n1; n2] →
       first_name [n0; n1; n2] name = Some name →
       ∃ groups,
         Re.match_pattern pattern (tag +:+ ws +:+ name) = Some (Some groups) ∧
         groups !! "content"%string = Some name ∧
         groups !! "remainder"%string = Some EmptyString) ∧
    (∀ ws text,
       all_space ws = true → starts_with_space text = false →
       first_name [n0; n1; n2] text = None →
       Re.match_pattern pattern (tag +:+ ws +:+ text) = Some None).
Proof.
  intros Hlang Htag Hopts Hsplit Hptag Hp0 Hp1 Hp2 Hs0 Hs1 Hs2.
  eexists. split; [eapply generate_regex_p2; eassumption|].
  unfold Re.match_pattern.
  rewrite (split_three_join opts n0 n1 n2 Hsplit).
  rewrite compile_p2 by assumption.
  split.
  - intros ws name Hws Hin Hfirst.
    assert (starts_with_space name = false) as Hname.
    { apply list_elem_of_In in Hin. simpl in Hin.
      destruct Hin as [<-|[<-|[<-|[]]]];
        match goal with H : solid ?n = true |- starts_with_space ?n = false =>
          destruct n; [reflexivity | simpl in *; apply negb_true_iff, H] end. }
    rewrite p2_regex_match by assumption.
    pose proof (exec_p2_answer n0 n1 n2
                  (String.length tag + String.length ws) name ∅) as Hmatch.
    rewrite Hfirst in Hmatch. destruct Hmatch as (rest & Hrest & ->).
    apply app_same_empty in Hrest. subst rest. rewrite exec_p2_tail_end.
    eexists. split; [reflexivity|]. split.
    + rewrite lookup_insert_ne by done. apply lookup_insert_eq.
    + apply lookup_insert_eq.
  - intros ws text Hws Hspace Hnone.
    rewrite p2_regex_match by assumption.
    pose proof (exec_p2_answer n0 n1 n2
                  (String.length tag + String.length ws) text ∅) as Hmatch.
    rewrite Hnone in Hmatch. rewrite Hmatch. reflexivity.
Qed.

Lemma p2_pattern_sound_witness :
  ∃ pattern,
    _generate_regex patterns_example "en" "p2" = Ok (VStr pattern) ∧
    (∀ ws name,
       all_space ws = true → name ∈ ["first"; "second"; "third"]%string →
       first_name ["first"; "second"; "third"]%string name = Some name →
       ∃ groups,
         Re.match_pattern pattern ("Answer:" +:+ ws +:+ name) = Some (Some groups) ∧
         groups !! "content"%string = Some name ∧
         groups !! "remainder"%string = Some EmptyString) ∧
    (∀ ws text,
       all_space ws = true → starts_with_space text = false →
       first_name ["first"; "second"; "third"]%string text = None →
       Re.match_pattern pattern ("Answer:" +:+ ws +:+ text) = Some None).
Proof.
  apply (p2_pattern_sound patterns_example "en"
           (locale_of "Expression:" "Answer:" "first|second|third")
           "Answer:" "first|second|third" "first" "second" "third"); reflexivity.
Defined.

(** * Further properties *)

(** ** [select_distractors]: errors, order of the candidates, iterations *)

Lemma select_distractors_mono distances t fuel fuel' r :
  select_distractors fuel t distances = Some r → (fuel ≤ fuel')%nat →
  select_distractors fuel' t distances = Some r.
Proof.
  unfold select_distractors. destruct (Py.getitem distances t); [|congruence].
  apply sd_loop_mono.
Qed.

(** X1: the only exception of [select_distractors] is the [IndexError] of
    [distances[target_grid]], raised exactly when the target index is not a
    row of the matrix; the calls of [index] inside the loop never raise. *)
Theorem select_distractors_index_error distances t :
  ((length distances ≤ t)%nat →
   ∀ fuel, select_distractors fuel t distances = Some (Raise IndexError)) ∧
  (∀ fuel e, select_distractors fuel t distances = Some (Raise e) →
             e = IndexError ∧ (length distances ≤ t)%nat).
Proof.
  split.
  - intros Hlen fuel. unfold select_distractors, Py.getitem.
    rewrite (proj2 (lookup_ge_None _ _)) by exact Hlen. reflexivity.
  - intros fuel e Hsel.
    destruct (distances !! t) as [row|] eqn:Hrow.
    + destruct (select_distractors_sound _ _ _ _ _ Hrow Hsel) as (i & j & Heq & _).
      discriminate.
    + unfold select_distractors, Py.getitem in Hsel. rewrite Hrow in Hsel.
      injection Hsel as <-. split; [reflexivity|]. apply lookup_ge_None, Hrow.
Qed.

Lemma select_distractors_index_error_witness :
  select_distractors 5 3 [[0; 1; 2]; [1; 0; 1]; [2; 1; 0]] = Some (Raise IndexError).
Proof.
  apply (proj1 (select_distractors_index_error [[0; 1; 2]; [1; 0; 1]; [2; 1; 0]] 3)).
  simpl. lia.
Defined.

(** X2: ties are broken by ascending index.  In the order by distance and
    then by index, the first result comes before every other index at a
    distance ≥ 1, and the second result before every such index other than
    the first. *)
Theorem select_distractors_tie_break distances t fuel i j :
  select_distractors fuel t distances = Some (Ok (Some i, Some j)) →
  ∃ d1 d2,
    entry distances t i = Some d1 ∧ entry distances t j = Some d2 ∧
    comes_after d1 i d2 j ∧
    (∀ k x, entry distances t k = Some x → 1 ≤ x → k ≠ i → comes_after d1 i x k) ∧
    (∀ k x, entry distances t k = Some x → 1 ≤ x → k ≠ i → k ≠ j →
            comes_after d2 j x k).
Proof.
  intros Hsel.
  destruct (select_distractors_Ok_row _ _ _ _ Hsel) as [row Hrow].
  destruct (select_distractors_sound _ _ row _ _ Hrow Hsel) as (i' & j' & Heq & Hpost).
  injection Heq as <- <-.
  destruct Hpost as (d1 & d2 & Hi & Hj & Hd1 & Hd12 & Hij & Hfirst & Hleast & Hsecond & Htie).
  exists d1, d2. rewrite !(entry_row _ _ row) by exact Hrow.
  assert (∀ k x, row !! k = Some x → 1 ≤ x → k ≠ i → comes_after d1 i x k) as Hone.
  { intros k x Hk Hx Hki. unfold comes_after.
    destruct Hleast as (_ & _ & Hleast).
    assert (d1 ≤ x) by (apply Hleast; [apply list_elem_of_lookup; eauto | lia]).
    destruct (decide (d1 = x)) as [<-|]; [right | left; lia].
    split; [reflexivity|]. destruct Hfirst as [_ Hfirst].
    destruct (Nat.lt_trichotomy k i) as [Hlt|[?|?]]; [|congruence|assumption].
    destruct (Hfirst k Hlt Hk). }
  split_and!; try assumption.
  - apply Hone; [assumption | lia | congruence].
  - intros k x Hk Hx Hki. rewrite (entry_row _ _ row) in Hk by exact Hrow. eauto.
  - intros k x Hk Hx Hki Hkj. rewrite (entry_row _ _ row) in Hk by exact Hrow.
    unfold comes_after.
    pose proof (Hsecond k x Hk Hx Hki Hkj) as Hge.
    destruct (decide (d2 = x)) as [<-|]; [right | left; lia].
    split; [reflexivity|].
    destruct Htie as [(-> & Hlt & Hbetween)|(Hlt & [_ Hfirst2] & _)].
    + destruct (Hone k d1 Hk Hd1 Hki) as [?|[_ Hik]]; [lia|].
      destruct (Nat.lt_trichotomy k j) as [Hkj'|[?|?]]; [|congruence|assumption].
      destruct (Hbetween k (conj Hik Hkj') Hk).
    + destruct (Nat.lt_trichotomy k j) as [Hkj'|[?|?]]; [|congruence|assumption].
      destruct (Hfirst2 k Hkj' Hk).
Qed.

Lemma select_distractors_tie_break_witness :
  ∃ d1 d2,
    entry [[0; 5; 1; 5; 1]] 0 2 = Some d1 ∧ entry [[0; 5; 1; 5; 1]] 0 4 = Some d2 ∧
    comes_after d1 2 d2 4 ∧
    (∀ k x, entry [[0; 5; 1; 5; 1]] 0 k = Some x → 1 ≤ x → k ≠ 2%nat →
            comes_after d1 2 x k) ∧
    (∀ k x, entry [[0; 5; 1; 5; 1]] 0 k = Some x → 1 ≤ x → k ≠ 2%nat → k ≠ 4%nat →
            comes_after d2 4 x k).
Proof.
  apply (select_distractors_tie_break [[0; 5; 1; 5; 1]] 0 3 2 4). reflexivity.
Defined.

(** An iteration that exits the loop has found the second index at the
    current threshold. *)
Lemma sd_body_exit l s s' :
  sd_body l s = Ok s' → found2 s = false → found2 s' = true →
  found1 s = true ∧ ∃ j, id2 s' = Some j ∧ l !! j = Some (min_distance s).
Proof.
  destruct s as [oi oj m f1 f2]. unfold sd_body; simpl. intros Hbody -> Hexit.
  destruct (Py.contains m l) eqn:Hin; [|injection Hbody as <-; discriminate].
  unfold Py.index in Hbody.
  destruct (Py.find_index m l) as [i0|] eqn:Hi0; [|destruct f1; discriminate].
  apply find_index_first in Hi0 as [Hi0 _].
  destruct f1; simpl in Hbody; [|injection Hbody as <-; discriminate].
  split; [reflexivity|].
  destruct (bool_decide (oi = Some i0)); simpl in Hbody.
  - destruct oi as [a|]; [|discriminate].
    destruct (Py.contains m (Py.slice_from l (a + 1))); [|injection Hbody as <-; discriminate].
    unfold Py.index_from in Hbody.
    destruct (Py.find_index m (drop (a + 1) l)) as [j'|] eqn:Hj'; [|discriminate].
    apply find_index_first in Hj' as [Hj' _]. rewrite lookup_drop in Hj'.
    injection Hbody as <-. simpl. eauto.
  - injection Hbody as <-. simpl. eauto.
Qed.

Lemma sd_remaining_positive l s fuel i j d2 :
  sd_inv l s → found2 s = false →
  sd_loop fuel l s = Some (Ok (Some i, Some j)) → l !! j = Some d2 →
  1 ≤ sd_remaining d2 s.
Proof.
  intros Hinv Hf Hloop Hj.
  destruct (sd_loop_sound l fuel s _ Hinv Hloop) as (i' & j' & Heq & Hpost).
  injection Heq as <- <-.
  destruct Hpost as (d1 & d2' & Hi & Hj' & Hd1 & Hd12 & Hij & _).
  assert (d2' = d2) as -> by congruence.
  pose proof (sd_inv_bounded l s i j d1 d2 Hinv Hf Hij Hi Hj Hd1 ltac:(lia)).
  unfold sd_remaining. destruct (found1 s); lia.
Qed.

Lemma sd_loop_exact l i j d2 :
  l !! j = Some d2 →
  ∀ n s fuel,
    sd_inv l s → found2 s = false →
    sd_loop fuel l s = Some (Ok (Some i, Some j)) →
    sd_remaining d2 s = Z.of_nat (S n) →
    sd_loop (S n) l s = Some (Ok (Some i, Some j)) ∧ sd_loop n l s = None.
Proof.
  intros Hj. induction n as [|n IH]; intros s fuel Hinv Hf Hloop Hrem.
  - split; [|simpl; rewrite Hf; reflexivity].
    destruct (sd_body_inv l s Hinv Hf) as (s' & Hbody & Hinv' & Hprog).
    destruct fuel as [|fuel]; [simpl in Hloop; rewrite Hf in Hloop; discriminate|].
    rewrite (sd_loop_next l s s') in Hloop by assumption.
    rewrite (sd_loop_next l s s') by assumption.
    destruct (found2 s') eqn:Hf';
      [rewrite sd_loop_found in Hloop |- * by exact Hf'; exact Hloop|].
    exfalso.
    pose proof (sd_remaining_positive l s' fuel i j d2 Hinv' Hf' Hloop Hj) as Hpos.
    unfold sd_remaining in *.
    destruct Hprog as [?|[(H1 & H1' & Hm)|(H1 & Hm)]]; [congruence| |].
    + rewrite H1 in Hrem. rewrite H1', Hm in Hpos. lia.
    + rewrite H1, Hm in Hpos. lia.
  - destruct (sd_body_inv l s Hinv Hf) as (s' & Hbody & Hinv' & Hprog).
    destruct fuel as [|fuel]; [simpl in Hloop; rewrite Hf in Hloop; discriminate|].
    rewrite (sd_loop_next l s s') in Hloop by assumption.
    rewrite !(sd_loop_next l s s') by assumption.
    destruct (found2 s') eqn:Hf'.
    + exfalso.
      destruct (sd_body_exit l s s' Hbody Hf Hf') as (H1 & j' & Hj' & Hm).
      rewrite sd_loop_found in Hloop by exact Hf'.
      assert (j' = j) as -> by congruence.
      assert (min_distance s = d2) by congruence.
      unfold sd_remaining in Hrem. rewrite H1 in Hrem. lia.
    + apply (IH s' fuel); try assumption.
      unfold sd_remaining in *.
      destruct Hprog as [?|[(H1 & H1' & Hm)|(H1 & Hm)]]; [congruence| |].
      * rewrite H1 in Hrem. rewrite H1', Hm. lia.
      * rewrite H1, Hm. destruct (found1 s); lia.
Qed.

(** X3: the loop runs exactly one iteration more than the distance of the
    second result: with that much fuel the search returns, with one
    iteration less it has not returned yet. *)
Theorem select_distractors_iterations distances t fuel i j d2 :
  select_distractors fuel t distances = Some (Ok (Some i, Some j)) →
  entry distances t j = Some d2 →
  select_distractors (Z.to_nat d2 + 1) t distances = Some (Ok (Some i, Some j)) ∧
  select_distractors (Z.to_nat d2) t distances = None.
Proof.
  intros Hsel Hj.
  destruct (select_distractors_Ok_row _ _ _ _ Hsel) as [row Hrow].
  rewrite (entry_row _ _ row) in Hj by exact Hrow.
  rewrite !(select_distractors_row _ _ row) in * by exact Hrow.
  destruct (sd_loop_sound row fuel _ _ (sd_inv_init row) Hsel) as (i' & j' & Heq & Hpost).
  injection Heq as <- <-.
  destruct Hpost as (d1 & d2' & _ & Hj' & Hd1 & Hd12 & _).
  assert (d2' = d2) as -> by congruence.
  replace (Z.to_nat d2 + 1)%nat with (S (Z.to_nat d2)) by lia.
  apply (sd_loop_exact row i j d2 Hj (Z.to_nat d2) sd_init fuel);
    [apply sd_inv_init | reflexivity | exact Hsel |].
  unfold sd_remaining, sd_init; simpl. lia.
Qed.

Lemma select_distractors_iterations_witness :
  select_distractors (Z.to_nat 7 + 1) 0 [[0; 3; 7]] = Some (Ok (Some 1%nat, Some 2%nat)) ∧
  select_distractors (Z.to_nat 7) 0 [[0; 3; 7]] = None.
Proof.
  apply (select_distractors_iterations [[0; 3; 7]] 0 20 1 2 7); reflexivity.
Defined.

(** ** [get_distances] and [generate_samples] *)

Lemma get_distances_zero grids i j gi gj :
  grids !! i = Some gi → grids !! j = Some gj →
  (entry (get_distances grids) i j = Some 0 ↔ gi = gj).
Proof.
  intros Hi Hj.
  pose proof (lookup_lt_Some _ _ _ Hi) as Hi'.
  pose proof (lookup_lt_Some _ _ _ Hj) as Hj'.
  rewrite get_distances_entry by assumption. unfold cell.
  rewrite (list_lookup_total_correct _ _ _ Hi), (list_lookup_total_correct _ _ _ Hj).
  destruct (decide (i = j)) as [->|Hne].
  - rewrite bool_decide_true by reflexivity. split; [congruence | reflexivity].
  - rewrite bool_decide_false by exact Hne. split.
    + intros [= Hd]. apply distance_zero. lia.
    + intros ->. rewrite distance_same. reflexivity.
Qed.

(** X4: the matrix of [get_distances] has one row per grid and one column
    per grid, its entries are not negative, and an entry is 0 exactly when
    the two grids are the same string. *)
Theorem get_distances_shape grids :
  length (get_distances grids) = length grids ∧
  (∀ i row, get_distances grids !! i = Some row → length row = length grids) ∧
  (∀ i j x, entry (get_distances grids) i j = Some x → 0 ≤ x) ∧
  (∀ i j gi gj, grids !! i = Some gi → grids !! j = Some gj →
                (entry (get_distances grids) i j = Some 0 ↔ gi = gj)).
Proof.
  pose proof (get_distances_is_distance_matrix grids) as Hdm.
  split_and!.
  - apply get_distances_length.
  - intros i row Hrow. rewrite <- get_distances_length. eapply dm_square; eassumption.
  - apply (dm_nonneg _ Hdm).
  - apply get_distances_zero.
Qed.

Lemma get_distances_shape_witness :
  entry (get_distances grids_repeated) 0 1 = Some 0 ↔ "00"%string = "00"%string.
Proof.
  destruct (get_distances_shape grids_repeated) as (_ & _ & _ & Hzero).
  apply (Hzero 0%nat 1%nat); reflexivity.
Defined.

(** The triplets that the loop of [generate_samples] appends are the
    results of its body for the target indices, in their order. *)
Lemma generate_samples_loop_spec fuel grids d : ∀ ids acc result,
  generate_samples_loop fuel grids d acc ids = Some (Ok result) →
  ∃ new, result = acc ++ new ∧
    Forall2 (λ t sample, generate_samples_body fuel grids d t = Some (Ok sample)) ids new.
Proof.
  induction ids as [|t ids IH]; intros acc result H; simpl in H.
  - injection H as <-. exists []. rewrite app_nil_r. split; [reflexivity | constructor].
  - destruct (generate_samples_body fuel grids d t) as [[sample|e]|] eqn:Hbody;
      try discriminate.
    destruct (IH _ _ H) as (new & -> & Hnew).
    exists (sample :: new). rewrite <- app_assoc. split; [reflexivity|].
    constructor; assumption.
Qed.

Lemma generate_samples_loop_total fuel grids d : ∀ ids acc,
  (∀ t, t ∈ ids → ∃ sample, generate_samples_body fuel grids d t = Some (Ok sample)) →
  ∃ result, generate_samples_loop fuel grids d acc ids = Some (Ok result).
Proof.
  induction ids as [|t ids IH]; intros acc H; simpl; [eauto|].
  destruct (H t) as [sample ->]; [apply list_elem_of_here|].
  apply IH. intros t' Ht'. apply H. apply list_elem_of_further, Ht'.
Qed.

(** What the body of the loop of [generate_samples] returns for a target
    of the group: the target grid and two grids of the group at two
    different indices, both at a distance ≥ 1 from the target. *)
Lemma generate_samples_body_spec fuel grids t sample :
  generate_samples_body fuel grids (get_distances grids) t = Some (Ok sample) →
  ∃ i j gt gi gj,
    sample = (gt, gi, gj) ∧
    select_distractors fuel t (get_distances grids) = Some (Ok (Some i, Some j)) ∧
    grids !! t = Some gt ∧ grids !! i = Some gi ∧ grids !! j = Some gj ∧
    i ≠ j ∧ i ≠ t ∧ j ≠ t ∧ gi ≠ gt ∧ gj ≠ gt.
Proof.
  unfold generate_samples_body. intros H.
  destruct (select_distractors fuel t (get_distances grids)) as [[[oi oj]|e]|] eqn:Hsel;
    try discriminate.
  destruct (select_distractors_Ok_row _ _ _ _ Hsel) as [row Hrow].
  destruct (select_distractors_sound _ _ row _ _ Hrow Hsel) as (i & j & [= -> ->] & Hpost).
  destruct Hpost as (d1 & d2 & Hi & Hj & Hd1 & Hd12 & Hij & _).
  rewrite <- (entry_row _ _ _ i Hrow) in Hi. rewrite <- (entry_row _ _ _ j Hrow) in Hj.
  unfold Py.getitem in H.
  destruct (grids !! t) as [gt|] eqn:Hgt; [|discriminate].
  destruct (grids !! i) as [gi|] eqn:Hgi; [|discriminate].
  destruct (grids !! j) as [gj|] eqn:Hgj; [|discriminate].
  injection H as <-. exists i, j, gt, gi, gj.
  assert (gi ≠ gt) as Hgit.
  { intros ->. rewrite (proj2 (get_distances_zero grids t i gt gt Hgt Hgi) eq_refl) in Hi.
    injection Hi as <-. lia. }
  assert (gj ≠ gt) as Hgjt.
  { intros ->. rewrite (proj2 (get_distances_zero grids t j gt gt Hgt Hgj) eq_refl) in Hj.
    injection Hj as <-. lia. }
  split_and!; try reflexivity; try assumption; intros ->; congruence.
Qed.

(** X5: whenever [generate_samples] returns, it returns one triplet per
    grid, in the order of the grids; the triplet of grid k has grid k as
    its target and, as distractors, two grids taken at two different indices
    of the group, each of them a different string than the target. *)
Theorem generate_samples_triplets fuel grids samples :
  generate_samples fuel grids = Some (Ok samples) →
  length samples = length grids ∧
  ∀ k target second third,
    samples !! k = Some (target, second, third) →
    grids !! k = Some target ∧
    (∃ i j, i ≠ j ∧ grids !! i = Some second ∧ grids !! j = Some third) ∧
    second ≠ target ∧ third ≠ target.
Proof.
  unfold generate_samples. intros H.
  destruct (generate_samples_loop_spec _ _ _ _ _ _ H) as (new & -> & Hnew).
  simpl. split.
  - rewrite <- (Forall2_length _ _ _ Hnew), length_seq. reflexivity.
  - intros k target second third Hk.
    destruct (Forall2_lookup_r _ _ _ _ _ Hnew Hk) as (t & Ht & Hbody).
    apply lookup_seq in Ht as [-> _]. simpl in Hbody.
    destruct (generate_samples_body_spec _ _ _ _ Hbody)
      as (i & j & gt & gi & gj & [= -> -> ->] & _ & Hgt & Hgi & Hgj & Hij & _ & _ & H1 & H2).
    split_and!; try assumption. exists i, j. auto.
Qed.

Lemma generate_samples_triplets_witness :
  length [("00", "01", "11"); ("01", "00", "11"); ("11", "01", "00")]%string
  = length grids_example ∧
  ∀ k target second third,
    [("00", "01", "11"); ("01", "00", "11"); ("11", "01", "00")]%string !! k
    = Some (target, second, third) →
    grids_example !! k = Some target ∧
    (∃ i j, i ≠ j ∧ grids_example !! i = Some second ∧ grids_example !! j = Some third) ∧
    second ≠ target ∧ third ≠ target.
Proof.
  apply (generate_samples_triplets 3 grids_example). vm_compute. reflexivity.
Defined.

Lemma generate_samples_body_returns fuel grids t r :
  (t < length grids)%nat →
  select_distractors fuel t (get_distances grids) = Some r →
  ∃ sample, generate_samples_body fuel grids (get_distances grids) t = Some (Ok sample).
Proof.
  intros Ht Hsel. unfold generate_samples_body. rewrite Hsel.
  pose proof (get_distances_lookup grids t Ht) as Hrow.
  destruct (select_distractors_sound _ _ _ _ _ Hrow Hsel) as (i & j & -> & Hpost).
  destruct Hpost as (d1 & d2 & Hi & Hj & _).
  apply lookup_lt_Some in Hi, Hj. rewrite length_fmap, length_seq in Hi, Hj.
  unfold Py.getitem.
  destruct (lookup_lt_is_Some_2 grids t Ht) as [gt ->].
  destruct (lookup_lt_is_Some_2 grids i Hi) as [gi ->].
  destruct (lookup_lt_is_Some_2 grids j Hj) as [gj ->].
  simpl. eauto.
Qed.

(** One amount of fuel serves all the targets of a group. *)
Lemma select_distractors_common_fuel distances : ∀ ids : list nat,
  (∀ t, t ∈ ids → ∃ fuel r, select_distractors fuel t distances = Some r) →
  ∃ fuel, ∀ t, t ∈ ids → ∃ r, select_distractors fuel t distances = Some r.
Proof.
  induction ids as [|t ids IH]; intros H.
  - exists 0%nat. intros t Ht. inversion Ht.
  - destruct (H t) as (f1 & r1 & Hr1); [apply list_elem_of_here|].
    destruct IH as [f2 Hf2].
    { intros t' Ht'. apply H, list_elem_of_further, Ht'. }
    exists (Nat.max f1 f2). intros t' Ht'. apply elem_of_cons in Ht' as [->|Ht'].
    + exists r1. eapply select_distractors_mono; [exact Hr1 | lia].
    + destruct (Hf2 t' Ht') as [r Hr]. exists r.
      eapply select_distractors_mono; [exact Hr | lia].
Qed.

(** X6: for a group of at least three pairwise different grids
    [generate_samples] returns, and the two distractors of every triplet
    are different strings. *)
Theorem generate_samples_distinct_grids grids :
  NoDup grids → (3 ≤ length grids)%nat →
  ∃ fuel samples,
    generate_samples fuel grids = Some (Ok samples) ∧
    length samples = length grids ∧
    ∀ k target second third,
      samples !! k = Some (target, second, third) →
      second ≠ target ∧ third ≠ target ∧ second ≠ third.
Proof.
  intros Hnodup Hlen.
  destruct (select_distractors_common_fuel (get_distances grids) (seq 0 (length grids)))
    as [fuel Hfuel].
  { intros t Ht. apply elem_of_seq in Ht as [_ Ht]. simpl in Ht.
    pose proof (get_distances_lookup grids t Ht) as Hrow.
    destruct (select_distractors_returns _ t _ Hrow
                (distinct_grids_two_positive grids t _ Hnodup Hlen Hrow))
      as (f & i & j & Hsel & _).
    eauto. }
  destruct (generate_samples_loop_total fuel grids (get_distances grids)
              (seq 0 (length grids)) []) as [samples Hsamples].
  { intros t Ht. destruct (Hfuel t Ht) as [r Hr].
    apply elem_of_seq in Ht as [_ Ht]. simpl in Ht.
    eapply generate_samples_body_returns; eassumption. }
  exists fuel, samples. split; [exact Hsamples|].
  destruct (generate_samples_loop_spec _ _ _ _ _ _ Hsamples) as (new & -> & Hnew).
  simpl. split.
  - rewrite <- (Forall2_length _ _ _ Hnew), length_seq. reflexivity.
  - intros k target second third Hk.
    destruct (Forall2_lookup_r _ _ _ _ _ Hnew Hk) as (t & Ht & Hbody).
    destruct (generate_samples_body_spec _ _ _ _ Hbody)
      as (i & j & gt & gi & gj & [= -> -> ->] & _ & Hgt & Hgi & Hgj & Hij & _ & _ & H1 & H2).
    split_and!; try assumption.
    intros ->. apply Hij. eapply NoDup_lookup; eassumption.
Qed.

Lemma generate_samples_distinct_grids_witness :
  ∃ fuel samples,
    generate_samples fuel grids_example = Some (Ok samples) ∧
    length samples = length grids_example ∧
    ∀ k target second third,
      samples !! k = Some (target, second, third) →
      second ≠ target ∧ third ≠ target ∧ second ≠ third.
Proof.
  apply (generate_samples_distinct_grids grids_example).
  - apply (bool_decide_unpack _). vm_compute. exact I.
  - simpl. lia.
Defined.

Lemma generate_samples_body_not_raised fuel grids t e :
  (t < length grids)%nat →
  generate_samples_body fuel grids (get_distances grids) t ≠ Some (Raise e).
Proof.
  intros Ht H.
  destruct (select_distractors fuel t (get_distances grids)) as [r|] eqn:Hsel.
  - destruct (generate_samples_body_returns fuel grids t r Ht Hsel) as [sample Hs].
    congruence.
  - unfold generate_samples_body in H. rewrite Hsel in H. discriminate.
Qed.

Lemma generate_samples_loop_hangs fuel grids t : ∀ ids acc,
  (∀ t', t' ∈ ids → (t' < length grids)%nat) → t ∈ ids →
  select_distractors fuel t (get_distances grids) = None →
  generate_samples_loop fuel grids (get_distances grids) acc ids = None.
Proof.
  induction ids as [|t' ids IH]; intros acc Hids Ht Hsel; [inversion Ht|].
  simpl.
  destruct (generate_samples_body fuel grids (get_distances grids) t')
    as [[sample|e]|] eqn:Hbody; [| |reflexivity].
  - apply elem_of_cons in Ht as [->|Ht].
    + unfold generate_samples_body in Hbody. rewrite Hsel in Hbody. discriminate.
    + apply IH; [|assumption..]. intros t'' Ht''. apply Hids, list_elem_of_further, Ht''.
  - destruct (generate_samples_body_not_raised fuel grids t' e); [|exact Hbody].
    apply Hids, list_elem_of_here.
Qed.

(** X7: a single grid without two grids at a positive distance keeps
    [generate_samples] from ever returning for the whole group; this is the
    case of every group of one or two grids, while the empty group gives
    the empty list at once. *)
Theorem generate_samples_hangs grids :
  (∀ t row, get_distances grids !! t = Some row → ¬ two_positive row →
            ∀ fuel, generate_samples fuel grids = None) ∧
  (∀ fuel, (length grids < 3)%nat →
           generate_samples fuel grids
           = match grids with [] => Some (Ok []) | _ :: _ => None end).
Proof.
  assert (∀ t row, get_distances grids !! t = Some row → ¬ two_positive row →
                   ∀ fuel, generate_samples fuel grids = None) as Hhang.
  { intros t row Hrow Hno fuel. unfold generate_samples.
    pose proof (lookup_lt_Some _ _ _ Hrow) as Ht. rewrite get_distances_length in Ht.
    apply (generate_samples_loop_hangs fuel grids t).
    - intros t' Ht'. apply elem_of_seq in Ht'. lia.
    - apply elem_of_seq. lia.
    - rewrite (select_distractors_row _ _ row) by exact Hrow.
      apply sd_loop_diverges, Hno. }
  split; [exact Hhang|].
  intros fuel Hlen. destruct grids as [|g grids]; [reflexivity|].
  assert (0 < length (g :: grids))%nat as H0 by (simpl; lia).
  pose proof (get_distances_lookup (g :: grids) 0 H0) as Hrow.
  apply (Hhang 0%nat _ Hrow).
  eapply short_distance_matrix_row; [apply get_distances_is_distance_matrix | | exact Hrow].
  rewrite get_distances_length. exact Hlen.
Qed.

Lemma generate_samples_hangs_witness :
  (∀ fuel, generate_samples fuel grids_identical = None) ∧
  generate_samples 5 ["00"; "01"]%string = None.
Proof.
  split.
  - apply (proj1 (generate_samples_hangs grids_identical) 0%nat [0; 0; 0]).
    + vm_compute. reflexivity.
    + intros (p & q & x & y & _ & Hp & _ & Hx & _).
      destruct p as [|[|[|p]]]; simpl in Hp; try discriminate; injection Hp as <-; lia.
  - apply (proj2 (generate_samples_hangs ["00"; "01"]%string) 5%nat). simpl. lia.
Defined.

(** ** [on_generate]: the experiments and their instances *)

Lemma generate_samples_targets fuel grids samples :
  generate_samples fuel grids = Some (Ok samples) →
  length samples = length grids ∧
  ∀ k, fst <$> (fst <$> samples !! k) = grids !! k.
Proof.
  unfold generate_samples. intros H.
  destruct (generate_samples_loop_spec _ _ _ _ _ _ H) as (new & -> & Hnew).
  simpl. pose proof (Forall2_length _ _ _ Hnew) as Hlen. rewrite length_seq in Hlen.
  split; [congruence|].
  intros k. destruct (new !! k) as [sample|] eqn:Hk; simpl.
  - destruct (Forall2_lookup_r _ _ _ _ _ Hnew Hk) as (t & Ht & Hbody).
    apply lookup_seq in Ht as [-> _]. simpl in Hbody.
    destruct (generate_samples_body_spec _ _ _ _ Hbody)
      as (i & j & gt & gi & gj & -> & _ & Hgt & _).
    simpl. congruence.
  - symmetry. apply lookup_ge_None. apply lookup_ge_None in Hk. lia.
Qed.

Lemma generate_samples_mono fuel fuel' grids samples :
  generate_samples fuel grids = Some (Ok samples) → (fuel ≤ fuel')%nat →
  generate_samples fuel' grids = Some (Ok samples).
Proof.
  unfold generate_samples. intros H Hle. revert H.
  generalize (@nil (string * string * string)) as acc.
  generalize (seq 0 (length grids)) as ids.
  induction ids as [|t ids IH]; intros acc H; simpl in *; [exact H|].
  destruct (generate_samples_body fuel grids (get_distances grids) t)
    as [[sample|e]|] eqn:Hbody; try discriminate.
  assert (generate_samples_body fuel' grids (get_distances grids) t = Some (Ok sample))
    as ->; [|apply IH, H].
  unfold generate_samples_body in *.
  destruct (select_distractors fuel t (get_distances grids)) as [r|] eqn:Hsel;
    [|discriminate].
  rewrite (select_distractors_mono _ _ _ _ _ Hsel Hle). exact Hbody.
Qed.

Section ValidLocale.

Variables (patterns : gmap string (gmap string string)) (lang : string).
Variables (locale : gmap string string) (opts p1 p2 n0 n1 n2 pa pb : string).
Hypothesis Hlang : patterns !! lang = Some locale.
Hypothesis Hopts : locale !! "p2_options"%string = Some opts.
Hypothesis Hp1 : locale !! "p1_tag"%string = Some p1.
Hypothesis Hp2 : locale !! "p2_tag"%string = Some p2.
Hypothesis Hsplit : Py.split "|" opts = [n0; n1; n2].

(** The three instances of one sample, with their numbers. *)
Lemma sample_body_numbered vars insts target second third :
  ∃ vars' g0 g1 g2,
    sample_body patterns lang pa pb (vars, insts) (target, second, third)
      = Ok (vars', insts ++ [g0; g1; g2]) ∧
    game_counter vars' = game_counter vars + 3 ∧
    (∀ r g, [g0; g1; g2] !! r = Some g →
       g !! "game_id"%string = Some (VInt (game_counter vars + Z.of_nat r)) ∧
       g !! "player_1_target_grid"%string = Some (VStr target) ∧
       slot_name g = VStr <$> [n0; n1; n2] !! r ∧
       player_2_slots g !! r = Some (Some (VStr target))).
Proof.
  destruct (slot_body_fields patterns lang pa pb target second third vars 1
              locale opts p1 p2 n0 n1 n2 Hlang Hopts Hp1 Hp2 Hsplit)
    as (v1 & g0 & Hb1 & Hc1 & Hid1 & Ht1 & _ & _ & Hf1 & _ & _ & Hn1).
  destruct (slot_body_fields patterns lang pa pb target second third v1 2
              locale opts p1 p2 n0 n1 n2 Hlang Hopts Hp1 Hp2 Hsplit)
    as (v2 & g1 & Hb2 & Hc2 & Hid2 & Ht2 & _ & _ & _ & Hs2 & _ & Hn2).
  destruct (slot_body_fields patterns lang pa pb target second third v2 3
              locale opts p1 p2 n0 n1 n2 Hlang Hopts Hp1 Hp2 Hsplit)
    as (v3 & g2 & Hb3 & Hc3 & Hid3 & Ht3 & _ & _ & _ & _ & Hh3 & Hn3).
  exists v3, g0, g1, g2.
  split; [eapply sample_body_slots; eassumption|].
  split; [lia|].
  intros r g Hr. unfold slot_name, player_2_slots.
  destruct r as [|[|[|r]]]; simpl in Hr; try discriminate; injection Hr as <-; simpl.
  - rewrite Hid1, Ht1, Hn1, Hf1. split_and!; try reflexivity. do 2 f_equal. lia.
  - rewrite Hid2, Ht2, Hn2, Hs2, Hc1. split_and!; reflexivity.
  - rewrite Hid3, Ht3, Hn3, Hh3, Hc2, Hc1. split_and!; try reflexivity.
    do 2 f_equal. lia.
Qed.

(** The loop over the samples of a group: three instances per sample,
    numbered from the counter on. *)
Lemma samples_loop_numbered : ∀ samples vars insts,
  ∃ vars' new,
    for_each (sample_body patterns lang pa pb) (vars, insts) samples
      = Ok (vars', insts ++ new) ∧
    length new = (3 * length samples)%nat ∧
    (∀ k g, new !! k = Some g →
       g !! "game_id"%string = Some (VInt (game_counter vars + Z.of_nat k)) ∧
       (VStr <$> (fst <$> (fst <$> samples !! (k `div` 3)%nat)))
         = g !! "player_1_target_grid"%string ∧
       (VStr <$> [n0; n1; n2] !! (k `mod` 3)%nat) = slot_name g ∧
       player_2_slots g !! (k `mod` 3)%nat
         = Some (g !! "player_1_target_grid"%string)).
Proof.
  induction samples as [|[[target second] third] samples IH]; intros vars insts.
  - exists vars, []. rewrite app_nil_r. split; [reflexivity|]. split; [reflexivity|].
    intros k g Hk. discriminate.
  - destruct (sample_body_numbered vars insts target second third)
      as (v & g0 & g1 & g2 & Hbody & Hcount & Hthree).
    destruct (IH v (insts ++ [g0; g1; g2])) as (vars' & new & Hloop & Hlen & Hnew).
    exists vars', ([g0; g1; g2] ++ new).
    cbn [for_each]. rewrite Hbody. cbn [mbind res_bind]. rewrite Hloop.
    split; [rewrite <- app_assoc; reflexivity|].
    split; [rewrite length_app, Hlen; simpl; lia|].
    intros k g Hk.
    destruct (decide (k < 3)%nat) as [Hlt|Hge].
    + rewrite lookup_app_l in Hk by (simpl; lia).
      destruct (Hthree k g Hk) as (Hid & Ht & Hn & Hslot).
      rewrite (Nat.div_small k 3), (Nat.mod_small k 3) by lia. simpl.
      rewrite Hid, Ht, Hn, Hslot. split_and!; reflexivity.
    + rewrite lookup_app_r in Hk by (simpl; lia). simpl in Hk.
      destruct (Hnew (k - 3)%nat g Hk) as (Hid & Ht & Hn & Hslot).
      assert (k `div` 3 = S ((k - 3) `div` 3))%nat as Hdiv.
      { replace k with (1 * 3 + (k - 3))%nat at 1 by lia.
        rewrite Nat.div_add_l by lia. reflexivity. }
      assert (k `mod` 3 = (k - 3) `mod` 3)%nat as Hmod.
      { replace k with ((k - 3) + 1 * 3)%nat at 1 by lia. apply Nat.Div0.mod_add. }
      rewrite Hdiv, Hmod. cbn [lookup list_lookup].
      rewrite Hid, Hslot, <- Ht, <- Hn. split_and!; try reflexivity.
      do 2 f_equal. lia.
Qed.

End ValidLocale.

Lemma group_body_numbered patterns files lang locale opts p1 p2 n0 n1 n2 pa pb
    vars grids_group samples :
  patterns !! lang = Some locale →
  locale !! "p2_options"%string = Some opts →
  locale !! "p1_tag"%string = Some p1 →
  locale !! "p2_tag"%string = Some p2 →
  Py.split "|" opts = [n0; n1; n2] →
  _load_prompt files lang "player_a_prompt_header.template" = Ok pa →
  _load_prompt files lang "player_b_prompt_header.template" = Ok pb →
  ∃ vars' instances,
    group_body patterns files lang vars grids_group samples
      = Ok (vars', {| experiment_name := grids_group; game_instances := instances |}) ∧
    length instances = (3 * length samples)%nat ∧
    (∀ k g, instances !! k = Some g →
       g !! "game_id"%string = Some (VInt (Z.of_nat k)) ∧
       (VStr <$> (fst <$> (fst <$> samples !! (k `div` 3)%nat)))
         = g !! "player_1_target_grid"%string ∧
       (VStr <$> [n0; n1; n2] !! (k `mod` 3)%nat) = slot_name g ∧
       player_2_slots g !! (k `mod` 3)%nat
         = Some (g !! "player_1_target_grid"%string)).
Proof.
  intros Hlang Hopts Hp1 Hp2 Hsplit Hpa Hpb.
  unfold group_body. rewrite Hpa, Hpb. cbn [mbind res_bind].
  destruct (samples_loop_numbered patterns lang locale opts p1 p2 n0 n1 n2 pa pb
              Hlang Hopts Hp1 Hp2 Hsplit samples
              {| target_grid := target_grid vars; second_grid := second_grid vars;
                 third_grid := third_grid vars; first_grid := first_grid vars;
                 target_grid_name := target_grid_name vars;
                 targets := targets vars; game_counter := 0 |} [])
    as (vars' & new & Hloop & Hlen & Hnew).
  rewrite Hloop. cbn [mbind res_bind app]. exists vars', new.
  split; [reflexivity|]. split; [exact Hlen|].
  intros k g Hk. destruct (Hnew k g Hk) as (Hid & Hrest).
  split; [|exact Hrest]. rewrite Hid. reflexivity.
Qed.

Lemma generate_samples_common_fuel (grids : list (string * list string)) :
  Forall (λ g, ∃ fuel samples, generate_samples fuel g.2 = Some (Ok samples)) grids →
  ∃ fuel, Forall (λ g, ∃ samples, generate_samples fuel g.2 = Some (Ok samples)) grids.
Proof.
  induction 1 as [|g grids (f1 & samples & Hs) _ [f2 IH]].
  - exists 0%nat. constructor.
  - exists (Nat.max f1 f2). constructor.
    + exists samples. eapply generate_samples_mono; [exact Hs | lia].
    + eapply Forall_impl; [exact IH|]. intros g' [samples' Hs'].
      exists samples'. eapply generate_samples_mono; [exact Hs' | lia].
Qed.

Lemma on_generate_loop_complete patterns files lang locale opts p1 p2 n0 n1 n2 pa pb fuel :
  patterns !! lang = Some locale →
  locale !! "p2_options"%string = Some opts →
  locale !! "p1_tag"%string = Some p1 →
  locale !! "p2_tag"%string = Some p2 →
  Py.split "|" opts = [n0; n1; n2] →
  _load_prompt files lang "player_a_prompt_header.template" = Ok pa →
  _load_prompt files lang "player_b_prompt_header.template" = Ok pb →
  ∀ grids vars experiments,
    Forall (λ g, ∃ samples, generate_samples fuel g.2 = Some (Ok samples)) grids →
    ∃ new,
      on_generate_loop fuel patterns files lang vars experiments grids
        = Some (Ok (experiments ++ new)) ∧
      Forall2 (λ e g,
                 experiment_name e = g.1 ∧
                 length (game_instances e) = (3 * length g.2)%nat ∧
                 ∀ k inst, game_instances e !! k = Some inst →
                           instance_at g.2 [n0; n1; n2] k inst)
              new grids.
Proof.
  intros Hlang Hopts Hp1 Hp2 Hsplit Hpa Hpb.
  induction grids as [|[grids_group group] grids IH]; intros vars experiments Hall.
  - exists []. rewrite app_nil_r. split; [reflexivity | constructor].
  - apply Forall_cons in Hall as [[samples Hsamples] Hall]. simpl in Hsamples.
    destruct (generate_samples_targets _ _ _ Hsamples) as [Hlen Htargets].
    destruct (group_body_numbered patterns files lang locale opts p1 p2 n0 n1 n2 pa pb
                vars grids_group samples Hlang Hopts Hp1 Hp2 Hsplit Hpa Hpb)
      as (vars' & instances & Hbody & Hcount & Hinst).
    destruct (IH vars' (experiments ++
                [{| experiment_name := grids_group; game_instances := instances |}]) Hall)
      as (new & Hloop & Hnew).
    exists ({| experiment_name := grids_group; game_instances := instances |} :: new).
    cbn [on_generate_loop]. rewrite Hsamples, Hbody, Hloop.
    split; [rewrite <- app_assoc; reflexivity|].
    constructor; [|exact Hnew]. simpl.
    split; [reflexivity|]. split; [lia|].
    intros k inst Hk. destruct (Hinst k inst Hk) as (Hid & Ht & Hn & Hslot).
    unfold instance_at. rewrite <- Htargets. auto.
Qed.

(** X8: for a locale with three position names and both prompt templates
    on disk, [on_generate] returns as soon as the samples of every group
    are found.  It gives one experiment per group, in the order of the
    groups and under their names, with three instances per grid; the
    instance at position k is numbered k, has grid k / 3 of the group as its
    target, and shows the target to player 2 in slot k mod 3, which is the
    slot that [target_grid_name] names. *)
Theorem on_generate_complete patterns files lang locale opts p1 p2 n0 n1 n2 pa pb grids :
  patterns !! lang = Some locale →
  locale !! "p2_options"%string = Some opts →
  locale !! "p1_tag"%string = Some p1 →
  locale !! "p2_tag"%string = Some p2 →
  Py.split "|" opts = [n0; n1; n2] →
  _load_prompt files lang "player_a_prompt_header.template" = Ok pa →
  _load_prompt files lang "player_b_prompt_header.template" = Ok pb →
  Forall (λ g, ∃ fuel samples, generate_samples fuel g.2 = Some (Ok samples)) grids →
  ∃ fuel experiments,
    on_generate fuel patterns files grids lang = Some (Ok experiments) ∧
    Forall2 (λ e g,
               experiment_name e = g.1 ∧
               length (game_instances e) = (3 * length g.2)%nat ∧
               ∀ k inst, game_instances e !! k = Some inst →
                         instance_at g.2 [n0; n1; n2] k inst)
            experiments grids.
Proof.
  intros Hlang Hopts Hp1 Hp2 Hsplit Hpa Hpb Hall.
  destruct (generate_samples_common_fuel grids Hall) as [fuel Hfuel].
  destruct (on_generate_loop_complete patterns files lang locale opts p1 p2 n0 n1 n2
              pa pb fuel Hlang Hopts Hp1 Hp2 Hsplit Hpa Hpb grids og_unbound [] Hfuel)
    as (new & Hloop & Hnew).
  exists fuel, new. split; [exact Hloop | exact Hnew].
Qed.

Lemma on_generate_complete_witness :
  ∃ fuel experiments,
    on_generate fuel patterns_example files_example [("g"%string, grids_example)] "en"
      = Some (Ok experiments) ∧
    Forall2 (λ e g,
               experiment_name e = g.1 ∧
               length (game_instances e) = (3 * length g.2)%nat ∧
               ∀ k inst, game_instances e !! k = Some inst →
                         instance_at g.2 ["first"; "second"; "third"]%string k inst)
            experiments [("g"%string, grids_example)].
Proof.
  apply (on_generate_complete patterns_example files_example "en"
           (locale_of "Expression:" "Answer:" "first|second|third")
           "first|second|third" "Expression:" "Answer:" "first" "second" "third"
           "Target: TARGET_GRID Second: SECOND_GRID Third: THIRD_GRID"
           "First: FIRST_GRID Second: SECOND_GRID Third: THIRD_GRID");
    try reflexivity.
  constructor; [|constructor].
  exists 3%nat. eexists. vm_compute. reflexivity.
Defined.

Lemma slot_body_key_error patterns lang pa pb sample vars i :
  (patterns !! lang ≫= λ locale, locale !! "p2_options"%string) = None →
  slot_body patterns lang pa pb sample vars i = Raise KeyError.
Proof.
  intros Hkey. destruct sample as [[t s] h]. unfold slot_body, Py.dict_getitem.
  destruct (patterns !! lang) as [locale|]; [|reflexivity].
  simpl in Hkey. cbn [mbind res_bind]. rewrite Hkey. reflexivity.
Qed.

Lemma sample_body_key_error patterns lang pa pb acc sample :
  (patterns !! lang ≫= λ locale, locale !! "p2_options"%string) = None →
  sample_body patterns lang pa pb acc sample = Raise KeyError.
Proof.
  intros Hkey. unfold sample_body. cbn [for_each].
  rewrite slot_body_key_error by exact Hkey. reflexivity.
Qed.

(** X9: the order in which [on_generate] fails on its first group.  A
    search for distractors that does not return keeps everything after it
    from happening; once the samples are there, a missing prompt template
    raises [FileNotFoundError], also for a group without grids and for an
    unknown language; only with both templates read and at least one sample
    does an unknown language, or a locale without [p2_options], raise
    [KeyError]. *)
Theorem on_generate_failures fuel patterns files lang grids_group group grids :
  (generate_samples fuel group = None →
   on_generate fuel patterns files ((grids_group, group) :: grids) lang = None) ∧
  (∀ samples,
     generate_samples fuel group = Some (Ok samples) →
     _load_prompt files lang "player_a_prompt_header.template" = Raise FileNotFoundError ∨
     _load_prompt files lang "player_b_prompt_header.template" = Raise FileNotFoundError →
     on_generate fuel patterns files ((grids_group, group) :: grids) lang
     = Some (Raise FileNotFoundError)) ∧
  (∀ samples pa pb,
     generate_samples fuel group = Some (Ok samples) → samples ≠ [] →
     _load_prompt files lang "player_a_prompt_header.template" = Ok pa →
     _load_prompt files lang "player_b_prompt_header.template" = Ok pb →
     (patterns !! lang ≫= λ locale, locale !! "p2_options"%string) = None →
     on_generate fuel patterns files ((grids_group, group) :: grids) lang
     = Some (Raise KeyError)).
Proof.
  unfold on_generate. cbn [on_generate_loop]. split_and!.
  - intros ->. reflexivity.
  - intros samples -> Hmissing. unfold group_body.
    destruct Hmissing as [-> | Hb]; [reflexivity|].
    destruct (_load_prompt files lang "player_a_prompt_header.template") as [pa|e] eqn:Ha.
    + cbn [mbind res_bind]. rewrite Hb. reflexivity.
    + unfold _load_prompt in Ha.
      destruct (files !! _); [discriminate | injection Ha as <-; reflexivity].
  - intros samples pa pb -> Hne Ha Hb Hkey. unfold group_body.
    rewrite Ha, Hb. cbn [mbind res_bind].
    destruct samples as [|sample samples]; [congruence|].
    cbn [for_each]. rewrite sample_body_key_error by exact Hkey. reflexivity.
Qed.

Lemma on_generate_failures_witness :
  on_generate 2 patterns_example files_example [("g"%string, grids_example)] "en" = None ∧
  on_generate 3 patterns_example ∅ [("g"%string, [])] "xx"
  = Some (Raise FileNotFoundError) ∧
  on_generate 3 patterns_example files_example [("g"%string, grids_example)] "en"
  ≠ Some (Raise KeyError) ∧
  on_generate 3 ∅ (<["resources/initial_prompts/xx/player_a_prompt_header.template"%string
                       := "a"%string]>
                     {[ "resources/initial_prompts/xx/player_b_prompt_header.template"%string
                        := "b"%string ]})
              [("g"%string, grids_example)] "xx"
  = Some (Raise KeyError).
Proof.
  split_and!.
  - apply (proj1 (on_generate_failures 2 patterns_example files_example "en" "g"
                    grids_example [])).
    vm_compute. reflexivity.
  - apply (proj1 (proj2 (on_generate_failures 3 patterns_example ∅ "xx" "g" [] []))
             []); [reflexivity | left; reflexivity].
  - vm_compute. discriminate.
  - apply (proj2 (proj2 (on_generate_failures 3 ∅ _ "xx" "g" grids_example []))
             [("00", "01", "11"); ("01", "00", "11"); ("11", "01", "00")]%string
             "a"%string "b"%string); try reflexivity. discriminate.
Defined.

(** ** The fields of a game instance *)

Lemma for_each_invariant {A B : Type} (P : B → Prop) (body : B → A → res B) :
  (∀ b a b', P b → body b a = Ok b' → P b') →
  ∀ l acc result, P acc → for_each body acc l = Ok result → P result.
Proof.
  intros Hbody. induction l as [|a l IH]; intros acc result Hacc H; simpl in H.
  - injection H as <-. exact Hacc.
  - destruct (body acc a) as [acc'|e] eqn:Ha; [|discriminate].
    cbn [mbind res_bind] in H. eapply IH; [|exact H]. eapply Hbody; eassumption.
Qed.

Lemma slot_body_fields_dom patterns lang pa pb sample vars i vars' inst :
  slot_body patterns lang pa pb sample vars i = Ok (vars', inst) →
  dom inst = instance_fields.
Proof.
  destruct sample as [[t s] h]. unfold slot_body.
  destruct (Py.dict_getitem patterns lang) as [locale|]; [|discriminate].
  cbn [mbind res_bind].
  destruct (Py.dict_getitem locale "p2_options") as [opts|]; [|discriminate].
  cbn [mbind res_bind].
  destruct (negb (bool_decide (length (Py.split "|" opts) = 3%nat))); [discriminate|].
  match goal with
  | |- (?slots ≫= _) = _ → _ => destruct slots as [[[[f s'] h'] name]|]; [|discriminate]
  end.
  cbn [mbind res_bind].
  destruct (_generate_regex patterns lang "p1") as [r1|]; [|discriminate].
  cbn [mbind res_bind].
  destruct (_generate_regex patterns lang "p2") as [r2|]; [|discriminate].
  cbn [mbind res_bind]. intros [= _ <-].
  unfold add_game_instance, instance_fields.
  rewrite !dom_insert_L, dom_singleton_L. set_solver.
Qed.

Lemma sample_body_fields_dom patterns lang pa pb acc sample result :
  Forall (λ g, dom g = instance_fields) acc.2 →
  sample_body patterns lang pa pb acc sample = Ok result →
  Forall (λ g, dom g = instance_fields) result.2.
Proof.
  intros Hacc H. unfold sample_body in H.
  revert H. apply (for_each_invariant (λ b, Forall (λ g, dom g = instance_fields) b.2));
    [|exact Hacc].
  intros b i b' Hb Hi.
  destruct (slot_body patterns lang pa pb sample b.1 i) as [[v g]|] eqn:Hslot;
    [|discriminate].
  cbn [mbind res_bind] in Hi. injection Hi as <-. simpl.
  apply Forall_app. split; [exact Hb|].
  constructor; [|constructor]. eapply slot_body_fields_dom, Hslot.
Qed.

Lemma on_generate_loop_fields_dom fuel patterns files lang : ∀ grids vars experiments result,
  Forall (λ e, Forall (λ g, dom g = instance_fields) (game_instances e)) experiments →
  on_generate_loop fuel patterns files lang vars experiments grids = Some (Ok result) →
  Forall (λ e, Forall (λ g, dom g = instance_fields) (game_instances e)) result.
Proof.
  induction grids as [|[grids_group group] grids IH]; intros vars experiments result Hexps H.
  - simpl in H. injection H as <-. exact Hexps.
  - cbn [on_generate_loop] in H.
    destruct (generate_samples fuel group) as [[samples|]|]; try discriminate.
    destruct (group_body patterns files lang vars grids_group samples)
      as [[vars' e]|] eqn:Hbody; [|discriminate].
    eapply IH; [|exact H].
    apply Forall_app. split; [exact Hexps|]. constructor; [|constructor].
    unfold group_body in Hbody.
    destruct (_load_prompt files lang "player_a_prompt_header.template") as [pa|];
      [|discriminate].
    destruct (_load_prompt files lang "player_b_prompt_header.template") as [pb|];
      [|discriminate].
    cbn [mbind res_bind] in Hbody.
    match type of Hbody with
    | (for_each ?body ?acc ?l ≫= _) = _ =>
        destruct (for_each body acc l) as [[v insts]|] eqn:Hloop; [|discriminate]
    end.
    cbn [mbind res_bind] in Hbody. injection Hbody as _ <-. simpl.
    change insts with (v, insts).2.
    revert Hloop.
    apply (for_each_invariant (λ b, Forall (λ g, dom g = instance_fields) b.2));
      [|constructor].
    intros b a b'. apply sample_body_fields_dom.
Qed.

(** X10: every game instance of every experiment that [on_generate]
    returns has the same twelve fields, no more and no fewer. *)
Theorem on_generate_instance_fields fuel patterns files grids lang experiments :
  on_generate fuel patterns files grids lang = Some (Ok experiments) →
  ∀ e g, e ∈ experiments → g ∈ game_instances e →
         dom g = instance_fields ∧ size g = 12%nat.
Proof.
  intros H e g He Hg.
  pose proof (on_generate_loop_fields_dom _ _ _ _ _ _ _ _ (Forall_nil_2 _) H) as Hall.
  rewrite Forall_forall in Hall. specialize (Hall e He).
  rewrite Forall_forall in Hall. specialize (Hall g Hg).
  split; [exact Hall|].
  rewrite <- size_dom, Hall. reflexivity.
Qed.

Lemma on_generate_instance_fields_witness :
  ∃ experiments,
    on_generate 3 patterns_example files_example [("g"%string, grids_example)] "en"
    = Some (Ok experiments) ∧
    ∀ e g, e ∈ experiments → g ∈ game_instances e →
           dom g = instance_fields ∧ size g = 12%nat.
Proof.
  eexists. split; [vm_compute; reflexivity|].
  apply (on_generate_instance_fields 3 patterns_example files_example
           [("g"%string, grids_example)] "en").
  vm_compute. reflexivity.
Defined.

(** ** [on_generate]: the prompts and the stored grids *)

Lemma for_each_invariant_in{A B : Type} (P : B → Prop) (body : B → A → res B) l :
  (∀ b a b', a ∈ l → P b → body b a = Ok b' → P b') →
  ∀ acc result, P acc → for_each body acc l = Ok result → P result.
Proof.
  induction l as [|a l IH]; intros Hbody acc result Hacc H; simpl in H.
  - injection H as <-. exact Hacc.
  - destruct (body acc a) as [acc'|e] eqn:Ha; [|discriminate].
    cbn [mbind res_bind] in H. eapply IH; [| |exact H].
    + intros b a' b' Hin. apply Hbody. right. exact Hin.
    + eapply Hbody; [left|exact Hacc|exact Ha].
Qed.

Lemma slot_body_shown patterns lang pa pb sample vars i vars' inst :
  i ∈ [1; 2; 3] →
  slot_body patterns lang pa pb sample vars i = Ok (vars', inst) →
  instance_shown pa pb inst.
Proof.
  intros Hi. destruct sample as [[t s] h]. unfold slot_body.
  destruct (Py.dict_getitem patterns lang) as [locale|]; [|discriminate].
  cbn [mbind res_bind].
  destruct (Py.dict_getitem locale "p2_options") as [opts|]; [|discriminate].
  cbn [mbind res_bind].
  destruct (negb (bool_decide (length (Py.split "|" opts) = 3%nat))); [discriminate|].
  rewrite !elem_of_cons in Hi.
  destruct Hi as [->|[->|[->|Hi]]]; [| | |apply elem_of_nil in Hi; destruct Hi].
  - rewrite (bool_decide_true (1 = 1)) by reflexivity.
    destruct (Py.getitem (Py.split "|" opts) 0) as [name|]; [|discriminate].
    cbn [mbind res_bind].
    destruct (_generate_regex patterns lang "p1") as [r1|]; [|discriminate].
    cbn [mbind res_bind].
    destruct (_generate_regex patterns lang "p2") as [r2|]; [|discriminate].
    cbn [mbind res_bind]. intros [= _ <-].
    exists t, s, h, t, s, h. unfold player_1_grids, player_2_grids, stored, render.
    split_and!; [| |reflexivity| |]; repeat f_equal; lookup_instance.
  - rewrite (bool_decide_false (2 = 1)) by discriminate.
    rewrite (bool_decide_true (2 = 2)) by reflexivity.
    destruct (Py.getitem (Py.split "|" opts) 1) as [name|]; [|discriminate].
    cbn [mbind res_bind].
    destruct (_generate_regex patterns lang "p1") as [r1|]; [|discriminate].
    cbn [mbind res_bind].
    destruct (_generate_regex patterns lang "p2") as [r2|]; [|discriminate].
    cbn [mbind res_bind]. intros [= _ <-].
    exists t, s, h, s, t, h. unfold player_1_grids, player_2_grids, stored, render.
    split_and!; [| |apply perm_swap| |]; repeat f_equal; lookup_instance.
  - rewrite (bool_decide_false (3 = 1)) by discriminate.
    rewrite (bool_decide_false (3 = 2)) by discriminate.
    rewrite (bool_decide_true (3 = 3)) by reflexivity.
    destruct (Py.getitem (Py.split "|" opts) 2) as [name|]; [|discriminate].
    cbn [mbind res_bind].
    destruct (_generate_regex patterns lang "p1") as [r1|]; [|discriminate].
    cbn [mbind res_bind].
    destruct (_generate_regex patterns lang "p2") as [r2|]; [|discriminate].
    cbn [mbind res_bind]. intros [= _ <-].
    exists t, s, h, h, s, t. unfold player_1_grids, player_2_grids, stored, render.
    split_and!; [| | | |]; repeat f_equal; try lookup_instance.
    etrans; [apply perm_swap|]. etrans; [apply perm_skip, perm_swap|].
    apply perm_swap.
Qed.

Lemma sample_body_shown patterns lang pa pb acc sample result :
  Forall (instance_shown pa pb) acc.2 →
  sample_body patterns lang pa pb acc sample = Ok result →
  Forall (instance_shown pa pb) result.2.
Proof.
  intros Hacc H. unfold sample_body in H.
  revert H. apply (for_each_invariant_in (λ b, Forall (instance_shown pa pb) b.2));
    [|exact Hacc].
  intros b i b' Hin Hb Hi.
  destruct (slot_body patterns lang pa pb sample b.1 i) as [[v g]|] eqn:Hslot;
    [|discriminate].
  cbn [mbind res_bind] in Hi. injection Hi as <-. simpl.
  apply Forall_app. split; [exact Hb|].
  constructor; [|constructor]. eapply slot_body_shown; [exact Hin|exact Hslot].
Qed.

Lemma on_generate_loop_shown fuel patterns files lang pa pb :
  _load_prompt files lang "player_a_prompt_header.template" = Ok pa →
  _load_prompt files lang "player_b_prompt_header.template" = Ok pb →
  ∀ grids vars experiments result,
    Forall (λ e, Forall (instance_shown pa pb) (game_instances e)) experiments →
    on_generate_loop fuel patterns files lang vars experiments grids = Some (Ok result) →
    Forall (λ e, Forall (instance_shown pa pb) (game_instances e)) result.
Proof.
  intros Hpa Hpb.
  induction grids as [|[grids_group group] grids IH]; intros vars experiments result Hexps H.
  - simpl in H. injection H as <-. exact Hexps.
  - cbn [on_generate_loop] in H.
    destruct (generate_samples fuel group) as [[samples|]|]; try discriminate.
    destruct (group_body patterns files lang vars grids_group samples)
      as [[vars' e]|] eqn:Hbody; [|discriminate].
    eapply IH; [|exact H].
    apply Forall_app. split; [exact Hexps|]. constructor; [|constructor].
    unfold group_body in Hbody. rewrite Hpa, Hpb in Hbody.
    cbn [mbind res_bind] in Hbody.
    match type of Hbody with
    | (for_each ?body ?acc ?l ≫= _) = _ =>
        destruct (for_each body acc l) as [[v insts]|] eqn:Hloop; [|discriminate]
    end.
    cbn [mbind res_bind] in Hbody. injection Hbody as _ <-. simpl.
    change insts with (v, insts).2.
    revert Hloop.
    apply (for_each_invariant (λ b, Forall (instance_shown pa pb) b.2));
      [|constructor].
    intros b a b'. apply sample_body_shown.
Qed.

(** X11: in every game instance that [on_generate] returns, each player's
    prompt is that player's template with the placeholders replaced, one
    after the other, by the grids that the instance stores for that player,
    in the stored order; and player 2 is shown the three grids of player 1,
    in some order. *)
Theorem on_generate_prompts fuel patterns files grids lang pa pb experiments :
  _load_prompt files lang "player_a_prompt_header.template" = Ok pa →
  _load_prompt files lang "player_b_prompt_header.template" = Ok pb →
  on_generate fuel patterns files grids lang = Some (Ok experiments) →
  ∀ e g, e ∈ experiments → g ∈ game_instances e → instance_shown pa pb g.
Proof.
  intros Hpa Hpb H e g He Hg.
  pose proof (on_generate_loop_shown fuel patterns files lang pa pb Hpa Hpb
                _ _ _ _ (Forall_nil_2 _) H) as Hall.
  rewrite Forall_forall in Hall. specialize (Hall e He).
  rewrite Forall_forall in Hall. exact (Hall g Hg).
Qed.

Lemma on_generate_prompts_witness :
  ∃ experiments,
    on_generate 3 patterns_example files_example [("g"%string, grids_example)] "en"
    = Some (Ok experiments) ∧
    ∀ e g, e ∈ experiments → g ∈ game_instances e →
           instance_shown "Target: TARGET_GRID Second: SECOND_GRID Third: THIRD_GRID"
                          "First: FIRST_GRID Second: SECOND_GRID Third: THIRD_GRID" g.
Proof.
  eexists. split; [vm_compute; reflexivity|].
  apply (on_generate_prompts 3 patterns_example files_example
           [("g"%string, grids_example)] "en"); vm_compute; reflexivity.
Defined.

(** ** [_generate_regex]: missing keys *)

(** X12: [_generate_regex] raises nothing but [KeyError].  For player
    "p1" it does so exactly when the language or its [p1_tag] is missing,
    and the entries of player 2 are never read; for player "p2" exactly when
    the language, its [p2_tag] or its [p2_options] is missing; for any other
    player it returns [None] without reading the table. *)
Theorem generate_regex_key_error patterns lang :
  (∀ player e, _generate_regex patterns lang player = Raise e → e = KeyError) ∧
  (_generate_regex patterns lang "p1" = Raise KeyError ↔
   (patterns !! lang ≫= λ locale, locale !! "p1_tag"%string) = None) ∧
  (_generate_regex patterns lang "p2" = Raise KeyError ↔
   (patterns !! lang ≫= λ locale, locale !! "p2_tag"%string) = None ∨
   (patterns !! lang ≫= λ locale, locale !! "p2_options"%string) = None) ∧
  (∀ player, player ≠ "p1"%string → player ≠ "p2"%string →
             _generate_regex patterns lang player = Ok VNone).
Proof.
  split_and!.
  - intros player e. unfold _generate_regex, Py.dict_getitem.
    destruct (String.eqb player "p1"); [|destruct (String.eqb player "p2")].
    + destruct (patterns !! lang) as [locale|]; cbn [mbind res_bind];
        [|congruence].
      destruct (locale !! "p1_tag"%string); cbn [mbind res_bind]; congruence.
    + destruct (patterns !! lang) as [locale|]; cbn [mbind res_bind];
        [|congruence].
      destruct (locale !! "p2_tag"%string); cbn [mbind res_bind]; [|congruence].
      destruct (locale !! "p2_options"%string); cbn [mbind res_bind]; congruence.
    + discriminate.
  - unfold _generate_regex, Py.dict_getitem.
    change (String.eqb "p1" "p1") with true. cbn iota.
    destruct (patterns !! lang) as [locale|]; cbn [mbind res_bind option_bind];
      [|split; reflexivity].
    destruct (locale !! "p1_tag"%string); cbn [mbind res_bind];
      split; (reflexivity || discriminate).
  - unfold _generate_regex, Py.dict_getitem.
    change (String.eqb "p2" "p1") with false. change (String.eqb "p2" "p2") with true.
    cbn iota.
    destruct (patterns !! lang) as [locale|]; cbn [mbind res_bind option_bind];
      [|split; [left|]; reflexivity].
    destruct (locale !! "p2_tag"%string); cbn [mbind res_bind];
      [|split; [left|]; reflexivity].
    destruct (locale !! "p2_options"%string); cbn [mbind res_bind].
    + split; [discriminate | intros [?|?]; discriminate].
    + split; [right|]; reflexivity.
  - intros player H1 H2. unfold _generate_regex.
    apply String.eqb_neq in H1, H2. rewrite H1, H2. reflexivity.
Qed.

Lemma generate_regex_key_error_witness :
  _generate_regex {[ "en"%string := {[ "p1_tag"%string := "Expression:"%string ]} ]}
                  "en" "p2" = Raise KeyError ∧
  _generate_regex patterns_example "en" "p3" = Ok VNone.
Proof.
  split.
  - apply (proj1 (proj2 (proj2 (generate_regex_key_error _ "en")))).
    left. reflexivity.
  - apply (proj2 (proj2 (proj2 (generate_regex_key_error patterns_example "en"))));
      discriminate.
Defined.

(** * The backend *)

(** ** The order of [sorted] *)

Lemma string_leb_trans : ∀ a b c : string,
  String.leb a b = true → String.leb b c = true → String.leb a c = true.
Proof.
  unfold String.leb.
  induction a as [|x a IH]; intros [|y b] [|z c]; simpl; try (discriminate || reflexivity).
  unfold Ascii.compare.
  destruct (N.compare_spec (N_of_ascii x) (N_of_ascii y)) as [Hxy|Hxy|Hxy];
    destruct (N.compare_spec (N_of_ascii y) (N_of_ascii z)) as [Hyz|Hyz|Hyz];
    destruct (N.compare_spec (N_of_ascii x) (N_of_ascii z)) as [Hxz|Hxz|Hxz];
    try discriminate; try reflexivity; try lia.
  apply IH.
Qed.

#[global] Instance str_le_total : Total Backend.str_le.
Proof. intros a b. apply String.leb_total. Qed.

#[global] Instance str_le_trans : Transitive Backend.str_le.
Proof. intros a b c. apply string_leb_trans. Qed.

#[global] Instance str_le_antisymm : AntiSymm (=) Backend.str_le.
Proof. intros a b. apply String.leb_antisym. Qed.

(** ** [list_models] *)

(** X13: [list_models] hands an error of the server on; otherwise it
    returns the ids of the models in ascending order, every id as often as
    the server lists it, and the result does not depend on the order in
    which the server lists the models. *)
Theorem list_models_sorted (data : list Backend.model_item) :
  ∃ names,
    Backend.list_models (Backend.Returned data) = Backend.Returned names ∧
    Sorted Backend.str_le names ∧
    names ≡ₚ Backend.item_id <$> data ∧
    (∀ data', data' ≡ₚ data →
              Backend.list_models (Backend.Returned data') = Backend.Returned names) ∧
    (∀ e, Backend.list_models (Backend.Raised e) = Backend.Raised e).
Proof.
  exists (Backend.sorted (Backend.item_id <$> data)).
  unfold Backend.list_models, Backend.sorted. split_and!.
  - reflexivity.
  - apply Sorted_merge_sort. apply _.
  - apply merge_sort_Permutation.
  - intros data' Hperm. f_equal.
    apply (Sorted_unique Backend.str_le).
    + apply Sorted_merge_sort. apply _.
    + apply Sorted_merge_sort. apply _.
    + rewrite !merge_sort_Permutation. apply fmap_Permutation, Hperm.
  - reflexivity.
Qed.

Example list_models_example :
  Backend.list_models
    (Backend.Returned [{| Backend.item_id := "gpt-b"; Backend.owned_by := "x" |};
                       {| Backend.item_id := "Llama"; Backend.owned_by := "y" |};
                       {| Backend.item_id := "gpt-a"; Backend.owned_by := "x" |};
                       {| Backend.item_id := "gpt-b"; Backend.owned_by := "z" |}])
  = Backend.Returned ["Llama"; "gpt-a"; "gpt-b"; "gpt-b"]%string.
Proof. vm_compute. reflexivity. Qed.

(** ** [GenericOpenAI.__init__] *)



Lemma list_models_sorted_witness :
  Backend.list_models
    (Backend.Returned [{| Backend.item_id := "b"; Backend.owned_by := "x" |};
                       {| Backend.item_id := "a"; Backend.owned_by := "y" |}])
  = Backend.list_models
      (Backend.Returned [{| Backend.item_id := "a"; Backend.owned_by := "y" |};
                         {| Backend.item_id := "b"; Backend.owned_by := "x" |}]).
Proof.
  destruct (list_models_sorted
              [{| Backend.item_id := "a"; Backend.owned_by := "y" |};
               {| Backend.item_id := "b"; Backend.owned_by := "x" |}])
    as (names & Hnames & _ & _ & Horder & _).
  rewrite Hnames. apply Horder. apply Permutation_swap.
Defined.

(** ** [strip] *)

Lemma lstrip_split s :
  ∃ a, s = a +:+ Backend.lstrip s ∧ all_space a = true ∧
       starts_with_space (Backend.lstrip s) = false.
Proof.
  induction s as [|c s (a & Ha & Hspace & Hstart)].
  - exists EmptyString. auto.
  - cbn [Backend.lstrip]. destruct (Re.is_space c) eqn:Hc.
    + exists (String c a). split_and!.
      * change (String c s = String c (a +:+ Backend.lstrip s)). f_equal. exact Ha.
      * cbn [all_space]. rewrite Hc, Hspace. reflexivity.
      * exact Hstart.
    + exists EmptyString. split_and!; [reflexivity | reflexivity | exact Hc].
Qed.

Lemma rstrip_split s :
  ∃ b, s = Backend.rstrip s +:+ b ∧ all_space b = true ∧
       ends_with_space (Backend.rstrip s) = false ∧
       (starts_with_space s = false → starts_with_space (Backend.rstrip s) = false).
Proof.
  induction s as [|c s (b & Hb & Hspace & Hend & _)].
  - exists EmptyString. auto.
  - cbn [Backend.rstrip]. destruct (Backend.rstrip s) as [|c' r] eqn:Hr.
    + change (EmptyString +:+ b) with b in Hb. subst b.
      destruct (Re.is_space c) eqn:Hc.
      * exists (String c s). split_and!; try reflexivity.
        cbn [all_space]. rewrite Hc, Hspace. reflexivity.
      * exists s. split_and!; try assumption; try reflexivity; auto.
    + exists b. split_and!; try assumption.
      * change (String c s = String c (String c' r +:+ b)). f_equal. exact Hb.
      * intros Hc. exact Hc.
Qed.

Lemma strip_split s :
  ∃ a b, s = a +:+ Backend.strip s +:+ b ∧
         all_space a = true ∧ all_space b = true ∧
         starts_with_space (Backend.strip s) = false ∧
         ends_with_space (Backend.strip s) = false.
Proof.
  unfold Backend.strip.
  destruct (lstrip_split s) as (a & Ha & Hspace_a & Hstart).
  destruct (rstrip_split (Backend.lstrip s)) as (b & Hb & Hspace_b & Hend & Hkeep).
  exists a, b. split_and!; auto.
  rewrite <- Hb. exact Ha.
Qed.

(** ** [generate_response] *)

Section GenerateProperties.

Context {T J : Type}.
Variable server : nat → Backend.request T → Backend.outcome Backend.api_response.
Variable json_loads : string → Backend.outcome J.

(** X15: what [generate_response], without its decorators, returns: the
    message history it was given, the parsed JSON of the completion, and the
    content of the first choice without the whitespace around it; the
    message of that choice has the role "assistant". *)
Theorem generate_response_body_returned m messages w prompt response text w' :
  Backend.generate_response_body server json_loads m messages w
    = (Backend.Returned (prompt, response, text), w') →
  prompt = messages ∧
  ∃ completion first whole before after,
    server (length (Backend.sent w))
           (Backend.Request (Backend.model_id m) messages
              (Backend.get_temperature m) (Backend.get_max_tokens m))
      = Backend.Returned completion ∧
    Backend.choices completion !! 0%nat = Some first ∧
    Backend.role first = "assistant"%string ∧
    Backend.content first = Some whole ∧
    json_loads (Backend.json completion) = Backend.Returned response ∧
    whole = before +:+ text +:+ after ∧
    all_space before = true ∧ all_space after = true ∧
    starts_with_space text = false ∧ ends_with_space text = false.
Proof.
  unfold Backend.generate_response_body. intros H.
  destruct (server _ _) as [completion|] eqn:Hserver; [|discriminate].
  destruct (Backend.choices completion !! 0%nat) as [first|] eqn:Hfirst; [|discriminate].
  destruct (String.eqb_spec (Backend.role first) "assistant") as [Hrole|]; [|discriminate].
  simpl in H.
  destruct (Backend.content first) as [whole|] eqn:Hcontent; [|discriminate].
  destruct (json_loads (Backend.json completion)) as [parsed|] eqn:Hjson; [|discriminate].
  injection H as <- <- <- <-. split; [reflexivity|].
  destruct (strip_split whole) as (a & b & Hwhole & Ha & Hb & Hstart & Hend).
  exists completion, first, whole, a, b. split_and!; auto.
Qed.

(** X16: the ways in which the body of [generate_response] fails, for
    whatever outcome exactly one request is sent and nothing is slept.  An
    error of the server is handed on; a completion without choices raises
    [IndexError]; a first choice whose role is not "assistant" raises
    [AttributeError] with a message that names the role, before its content
    is looked at; a first choice of the assistant without content raises
    [AttributeError] as well. *)
Theorem generate_response_body_failures m messages w :
  let r := Backend.Request (Backend.model_id m) messages
             (Backend.get_temperature m) (Backend.get_max_tokens m) in
  let result := Backend.generate_response_body server json_loads m messages w in
  result.2 = {| Backend.sent := Backend.sent w ++ [r]; Backend.slept := Backend.slept w |} ∧
  (∀ e, server (length (Backend.sent w)) r = Backend.Raised e →
        result.1 = Backend.Raised e) ∧
  (∀ completion, server (length (Backend.sent w)) r = Backend.Returned completion →
     (Backend.choices completion = [] → result.1 = Backend.Raised Backend.IndexError) ∧
     (∀ first rest, Backend.choices completion = first :: rest →
        (Backend.role first ≠ "assistant"%string →
         result.1 = Backend.Raised
                      (Backend.AttributeError
                         ("Response message role is " +:+ Backend.role first
                            +:+ " but should be 'assistant'"))) ∧
        (Backend.role first = "assistant"%string → Backend.content first = None →
         ∃ message, result.1 = Backend.Raised (Backend.AttributeError message)))).
Proof.
  intros r result. subst result r. unfold Backend.generate_response_body.
  destruct (server _ _) as [completion|e] eqn:Hserver.
  - split_and!.
    + destruct (Backend.choices completion !! 0%nat) as [first|]; [|reflexivity].
      destruct (negb _); [reflexivity|].
      destruct (Backend.content first); [|reflexivity].
      destruct (json_loads _); reflexivity.
    + discriminate.
    + intros completion' [= <-]. split.
      * intros ->. reflexivity.
      * intros first rest ->. simpl. split.
        -- intros Hrole. apply String.eqb_neq in Hrole. rewrite Hrole. reflexivity.
        -- intros Hrole Hcontent. rewrite Hrole, Hcontent. simpl. eauto.
  - split_and!; [reflexivity | intros e' [= <-]; reflexivity | discriminate].
Qed.


Variable ensure_messages_format :
  (list (gmap string string) → Backend.world T →
   Backend.outcome (list (gmap string string) * J * string) * Backend.world T) →
  list (gmap string string) → Backend.world T →
  Backend.outcome (list (gmap string string) * J * string) * Backend.world T.
Variable normalise : list (gmap string string) → list (gmap string string).

(** The decorator calls the function it wraps once, on a message history
    that it may have rewritten. *)
Hypothesis decorator_calls_once :
  ∀ f messages w, ensure_messages_format f messages w = f (normalise messages) w.


End GenerateProperties.

Lemma generate_response_body_returned_witness :
  ∃ completion first whole before after,
    server_example 2 (Backend.Request "model-a" [] 0 100) = Backend.Returned completion ∧
    Backend.choices completion !! 0%nat = Some first ∧
    Backend.role first = "assistant"%string ∧ Backend.content first = Some whole ∧
    json_loads_example (Backend.json completion) = Backend.Returned "{}"%string ∧
    whole = (before +:+ "second" +:+ after)%string ∧
    all_space before = true ∧ all_space after = true ∧
    starts_with_space "second" = false ∧ ends_with_space "second" = false.
Proof.
  eapply (generate_response_body_returned server_example json_loads_example
            model_example []
            {| Backend.sent := replicate 2 (Backend.Request "model-a" [] 0 100);
               Backend.slept := 180 |}
            [] "{}" "second").
  vm_compute. reflexivity.
Defined.

Lemma generate_response_body_failures_witness :
  (Backend.generate_response_body server_example json_loads_example
     model_example [] world_init).1
  = Backend.Raised (Backend.APIError "timeout").
Proof.
  pose proof (generate_response_body_failures server_example json_loads_example
                model_example [] world_init) as H.
  cbv zeta in H. destruct H as (_ & H & _).
  apply H. reflexivity.
Defined.

